(** * AirCoach traffic pipeline: grid scan, IDW interpolation, 24-hour synthesis

    Shallow embedding of three scripts of [data_pipeline/car_traffic/scripts]:

    - [scan_traffic.py]            ([generate_grid], [fetch_congestion],
                                    [scan_traffic_grid]);
    - [visualize_dense_traffic.py] ([interpolate_traffic_idw]);
    - [visualize_time_machine.py]  ([get_time_multiplier], [rgb_to_hex],
                                    [get_smooth_gradient_color],
                                    [generate_hourly_snapshots]).

    Conventions.
    - A Python float is an exact rational ([Q]); results are compared with
      [==].  pandas' missing value NaN is [None].
    - The planar (Euclidean) distance of the k-d tree needs a square root,
      which [Q] does not have: the development is parametric in the numeric
      square root [sqrtQ], and the few facts used about it are hypotheses.
    - Python exceptions are values of [exc]; code that can raise returns a
      [result].  Code that talks to the network or sleeps runs in the monad
      [M], which threads the [world] (requests issued so far, event log). *)

From Stdlib Require Import ZArith QArith Qround Qminmax Qpower List String Ascii Lia Lqa Bool.
From Stdlib Require Import Permutation Sorted.
From Stdlib Require HexString DecimalString.
Import ListNotations.
Open Scope Q_scope.

(* ===================================================================== *)
(** * Part I.  Definitions *)
(* ===================================================================== *)

(** ** Python and numpy primitives *)

Inductive exc : Type :=
| ConnectionError     (* requests.ConnectionError, a RequestException *)
| Timeout             (* requests.Timeout, a RequestException *)
| HTTPError           (* raised by raise_for_status, a RequestException *)
| ZeroDivisionError
| IndexError
| ValueError.

Definition is_RequestException (e : exc) : bool :=
  match e with
  | ConnectionError | Timeout | HTTPError => true
  | ZeroDivisionError | IndexError | ValueError => false
  end.

Inductive result (A : Type) : Type :=
| Ok (a : A)
| Raise (e : exc).
Arguments Ok {A} a.
Arguments Raise {A} e.

Definition rbind {A B} (r : result A) (f : A -> result B) : result B :=
  match r with
  | Ok a => f a
  | Raise e => Raise e
  end.

Declare Scope result_scope.
Delimit Scope result_scope with result.
Notation "x <- c ;; k" := (rbind c (fun x => k))
  (at level 61, c at next level, right associativity) : result_scope.

(** [[f(x) for x in xs]] where [f] may raise: the first exception wins. *)
Fixpoint mapM {A B} (f : A -> result B) (xs : list A) : result (list B) :=
  match xs with
  | [] => Ok []
  | x :: xs' =>
      (y <- f x ;;
       ys <- mapM f xs' ;;
       Ok (y :: ys))%result
  end.

Definition Qltb (x y : Q) : bool := negb (Qle_bool y x).

(** Python's [min(a, b)] and [max(a, b)]: the first argument is kept unless
    the second is strictly smaller (larger). *)
Definition py_min (a b : Q) : Q := if Qltb b a then b else a.
Definition py_max (a b : Q) : Q := if Qltb a b then b else a.

(** [int(x)] on a float truncates toward zero. *)
Definition py_int (x : Q) : Z :=
  if Qle_bool 0 x then Qfloor x else Qceiling x.

(** [sum] of a numpy vector. *)
Definition Qsum (l : list Q) : Q := fold_right Qplus 0 l.

(** Elementwise product of two numpy vectors of the same length. *)
Fixpoint Qmul_vec (xs ys : list Q) : list Q :=
  match xs, ys with
  | x :: xs', y :: ys' => x * y :: Qmul_vec xs' ys'
  | _, _ => []
  end.

(** [np.arange(start, stop, step)] on Python floats: the length is
    [ceil((stop - start) / step)], a non-positive length gives the empty
    array, and the division raises for a zero step.  Element [i] is
    [start + i * step]. *)
Definition np_arange (start stop step : Q) : result (list Q) :=
  if Qeq_bool step 0 then Raise ZeroDivisionError
  else
    let len := Z.to_nat (Qceiling ((stop - start) / step)) in
    Ok (map (fun i => start + inject_Z (Z.of_nat i) * step) (seq 0 len)).

(** Format specification [02x] applied to an int: lower-case hexadecimal
    digits of the magnitude, a leading [-] for a negative number, zero
    padding up to width 2 (the sign counts toward the width). *)
Definition hex_magnitude (n : Z) : string :=
  match n with
  | Z0 => String "0" EmptyString
  | Zpos p | Zneg p => HexString.Raw.of_pos p EmptyString
  end.

Definition format_02x (n : Z) : string :=
  let digits := hex_magnitude n in
  if (n <? 0)%Z then String "-" digits
  else if (String.length digits <? 2)%nat then String "0" digits
  else digits.

(** ** The world of the scanner: network requests and sleeps *)

Inductive event : Type :=
| EvGet (lat lon : Q)      (* session.get(TOMTOM_FLOW_URL, point=lat,lon) *)
| EvSleep (seconds : Q).   (* time.sleep(seconds) *)

Record world : Type := mkWorld {
  requests_made : nat;
  log : list event
}.

Definition M (A : Type) : Type := world -> result A * world.

Definition ret {A} (a : A) : M A := fun w => (Ok a, w).
Definition raise {A} (e : exc) : M A := fun w => (Raise e, w).
Definition bind {A B} (c : M A) (f : A -> M B) : M B :=
  fun w =>
    match c w with
    | (Ok a, w') => f a w'
    | (Raise e, w') => (Raise e, w')
    end.

(** [try: body  except requests.RequestException: handler]. *)
Definition try_except_RequestException {A} (body : M A) (handler : exc -> M A) : M A :=
  fun w =>
    match body w with
    | (Ok a, w') => (Ok a, w')
    | (Raise e, w') =>
        if is_RequestException e then handler e w' else (Raise e, w')
    end.

Declare Scope M_scope.
Delimit Scope M_scope with M.
Notation "x <- c ;; k" := (bind c (fun x => k))
  (at level 61, c at next level, right associativity) : M_scope.
Notation "c ;; k" := (bind c (fun _ => k))
  (at level 61, right associativity) : M_scope.

Definition lift {A} (r : result A) : M A := fun w => (r, w).

Definition time_sleep (seconds : Q) : M unit :=
  fun w => (Ok tt, mkWorld (requests_made w) (log w ++ [EvSleep seconds])).

(** ** scan_traffic.py *)

Record BBox : Type := mkBBox {
  lat_min : Q;
  lat_max : Q;
  lon_min : Q;
  lon_max : Q
}.

Definition BBOX : BBox := mkBBox 44.33 44.56 25.96 26.23.
Definition GRID_SPACING : Q := 0.005.

(** [generate_grid]: row-major product of the two [np.arange] ranges. *)
Definition generate_grid (bbox : BBox) (spacing : Q) : result (list (Q * Q)) :=
  (lats <- np_arange (lat_min bbox) (lat_max bbox) spacing ;;
   lons <- np_arange (lon_min bbox) (lon_max bbox) spacing ;;
   Ok (flat_map (fun lat => map (fun lon => (lat, lon)) lons) lats))%result.

(** The part of the provider's JSON answer that the scanner reads: an
    object whose optional [flowSegmentData] holds two optional numbers.
    [flowSegmentData = None] is a body without that key, for which
    [data.get("flowSegmentData", {})] is the empty dict.  Bodies of another
    shape are outside the model. *)
Record FlowSegmentData : Type := mkFlow {
  currentSpeed : option Q;
  freeFlowSpeed : option Q
}.

Record Response : Type := mkResponse {
  status_code : Z;
  flowSegmentData : option FlowSegmentData
}.

(** What one [session.get] does: an HTTP answer, or a transport failure
    raised as a [RequestException]. *)
Inductive get_outcome : Type :=
| Responded (r : Response)
| ConnectionFailed
| TimedOut.

(** The external flow lookup: the outcome of the [n]-th request issued,
    for the queried point. *)
Definition Session : Type := nat -> Q -> Q -> get_outcome.

Definition session_get (session : Session) (lat lon : Q) : M Response :=
  fun w =>
    let w' := mkWorld (S (requests_made w)) (log w ++ [EvGet lat lon]) in
    match session (requests_made w) lat lon with
    | Responded r => (Ok r, w')
    | ConnectionFailed => (Raise ConnectionError, w')
    | TimedOut => (Raise Timeout, w')
    end.

(** [response.raise_for_status()]: HTTPError for 4xx and 5xx. *)
Definition raise_for_status (r : Response) : M unit :=
  if ((400 <=? status_code r) && (status_code r <? 600))%Z
  then raise HTTPError else ret tt.

(** One row of the scan: the dict returned by [fetch_congestion].  The
    invalid dict has no speed keys; they are [None] here, as they are NaN
    in the DataFrame built from the rows. *)
Record FlowSample : Type := mkSample {
  lat : Q;
  lon : Q;
  current_speed : option Q;
  free_flow_speed : option Q;
  congestion_factor : option Q
}.

Definition invalid_sample (lat lon : Q) : FlowSample :=
  mkSample lat lon None None None.

(** Lines 85-104 of [fetch_congestion]: the request, the single retry after
    a 429, [raise_for_status], and the extraction of the two speeds. *)
Definition retrieve_speeds (session : Session) (lat lon : Q)
  : M (option Q * option Q) :=
  (response <- session_get session lat lon ;;
   response <- (if (status_code response =? 429)%Z
                then (time_sleep 5 ;; session_get session lat lon)
                else ret response) ;;
   raise_for_status response ;;
   let flow_data :=
     match flowSegmentData response with
     | Some d => d
     | None => mkFlow None None
     end in
   ret (currentSpeed flow_data, freeFlowSpeed flow_data))%M.

(** Lines 106-119: the congestion factor from the two speeds. *)
Definition sample_of_speeds (lat lon : Q) (speeds : option Q * option Q)
  : FlowSample :=
  match speeds with
  | (Some current_speed, Some free_flow_speed) =>
      if Qltb 0 free_flow_speed then
        let congestion_factor := 1 - current_speed / free_flow_speed in
        let congestion_factor := py_max 0 (py_min 1 congestion_factor) in
        mkSample lat lon (Some current_speed) (Some free_flow_speed)
                 (Some congestion_factor)
      else invalid_sample lat lon
  | _ => invalid_sample lat lon
  end.

Definition fetch_congestion (session : Session) (lat lon : Q) : M FlowSample :=
  try_except_RequestException
    (speeds <- retrieve_speeds session lat lon ;;
     ret (sample_of_speeds lat lon speeds))%M
    (fun _ => ret (invalid_sample lat lon)).

(** The loop of [scan_traffic_grid]; [i] is the 1-based [enumerate] index. *)
Fixpoint scan_loop (session : Session) (total i : nat) (grid : list (Q * Q))
         (results : list FlowSample) : M (list FlowSample) :=
  match grid with
  | [] => ret results
  | (lat, lon) :: rest =>
      (result <- fetch_congestion session lat lon ;;
       let results := results ++ [result] in
       (if (i <? total)%nat then time_sleep 0.2 else ret tt) ;;
       scan_loop session total (S i) rest results)%M
  end.

Definition scan_traffic_grid (session : Session) (grid : list (Q * Q))
  : M (list FlowSample) :=
  scan_loop session (List.length grid) 1 grid [].

(** Lines 179-188 of [main] (and of [log_hourly_snapshot]): the grid, then
    the scan. *)
Definition run_scan (session : Session) (bbox : BBox) (spacing : Q)
  : M (list FlowSample) :=
  (grid <- lift (generate_grid bbox spacing) ;;
   scan_traffic_grid session grid)%M.

Definition is_valid (s : FlowSample) : bool :=
  match congestion_factor s with Some _ => true | None => false end.

(** ** visualize_dense_traffic.py *)

(** A shapely point: [x] is the longitude, [y] the latitude. *)
Record Point : Type := mkPoint {
  px : Q;
  py : Q
}.

(** A row of the road GeoDataFrame before interpolation: the centroid of
    its geometry and its road class. *)
Record RoadSegment : Type := mkSegment {
  centroid : Point;
  highway : string
}.

(** A row after interpolation: the same, with [congestion_level]. *)
Record Road : Type := mkRoad {
  segment : RoadSegment;
  congestion_level : option Q
}.

(** A distance returned by the tree: [Infinite] marks a missing neighbour. *)
Inductive xdist : Type :=
| Finite (d : Q)
| Infinite.

(** The guard of line 119. *)
Definition EPS : Q := 1e-10.

(** [np.maximum(d, m)] and [1.0 / d] on one entry.  [1.0 / inf] is [0.0];
    a zero finite distance never reaches the division, the guard comes
    first. *)
Definition np_maximum (d : xdist) (m : Q) : xdist :=
  match d with
  | Finite q => Finite (if Qltb q m then m else q)
  | Infinite => Infinite
  end.

Definition np_reciprocal (d : xdist) : Q :=
  match d with
  | Finite q => 1 / q
  | Infinite => 0
  end.

(** [a[idx]] with an integer index array: IndexError when out of bounds. *)
Definition np_take (a : list Q) (idx : list nat) : result (list Q) :=
  mapM (fun j => match nth_error a j with
                 | Some v => Ok v
                 | None => Raise IndexError
                 end) idx.

Section Interpolation.

(** The square root of the Euclidean metric. *)
Variable sqrtQ : Q -> Q.

Definition planar_distance (a b : Q * Q) : Q :=
  sqrtQ ((fst a - fst b) * (fst a - fst b) + (snd a - snd b) * (snd a - snd b)).

(** Candidates ordered by increasing distance; among equal distances the
    lower data index comes first. *)
Fixpoint insert_by_distance (e : Q * nat) (l : list (Q * nat)) : list (Q * nat) :=
  match l with
  | [] => [e]
  | h :: t =>
      if Qle_bool (fst e) (fst h) then e :: l
      else h :: insert_by_distance e t
  end.

Definition sort_by_distance (l : list (Q * nat)) : list (Q * nat) :=
  fold_right insert_by_distance [] l.

(** The (at most [k]) nearest data points of [x]: distance and index. *)
Definition nearest (data : list (Q * Q)) (x : Q * Q) (k : nat) : list (Q * nat) :=
  firstn k (sort_by_distance
              (combine (map (planar_distance x) data) (seq 0 (List.length data)))).

(** One row of [tree.query(x, k=k)]: [k] distances and [k] indices;
    a missing neighbour has distance inf and index [tree.n]. *)
Definition query_row (data : list (Q * Q)) (x : Q * Q) (k : nat)
  : list xdist * list nat :=
  let found := nearest data x k in
  let missing := (k - List.length found)%nat in
  (map (fun e => Finite (fst e)) found ++ repeat Infinite missing,
   map snd found ++ repeat (List.length data) missing).

(** [cKDTree(data).query(xs, k=k)], row [i] pairing [distances[i]] with
    [indices[i]].  An empty [xs] is the array [np.array([])] of shape
    (0,), which is not a sequence of 2-vectors; [k] below 1 is rejected. *)
Definition cKDTree_query (data xs : list (Q * Q)) (k : nat)
  : result (list (list xdist * list nat)) :=
  match xs with
  | [] => Raise ValueError
  | _ :: _ =>
      if (k =? 0)%nat then Raise ValueError
      else Ok (map (fun x => query_row data x k) xs)
  end.

(** The body of the loop, lines 114-127, for one road. *)
Definition idw_row (traffic_congestion : list Q) (row : list xdist * list nat)
  : result Q :=
  (neighbor_congestion <- np_take traffic_congestion (snd row) ;;
   let neighbor_distances := map (fun d => np_maximum d EPS) (fst row) in
   let weights := map np_reciprocal neighbor_distances in
   let total := Qsum weights in
   let weights := map (fun w => w / total) weights in
   Ok (Qsum (Qmul_vec neighbor_congestion weights)))%result.

Definition traffic_valid (traffic_df : list FlowSample) : list FlowSample :=
  filter is_valid traffic_df.

Definition valid_values (traffic_df : list FlowSample) : list Q :=
  flat_map (fun s => match congestion_factor s with
                     | Some c => [c]
                     | None => []
                     end) (traffic_valid traffic_df).

Definition interpolate_traffic_idw (roads_gdf : list RoadSegment)
           (traffic_df : list FlowSample) (k : nat) : result (list Road) :=
  let traffic_coords := map (fun s => (lat s, lon s)) (traffic_valid traffic_df) in
  let traffic_congestion := valid_values traffic_df in
  let road_coords :=
    map (fun r => (py (centroid r), px (centroid r))) roads_gdf in
  (rows <- cKDTree_query traffic_coords road_coords k ;;
   congestion_levels <- mapM (idw_row traffic_congestion) rows ;;
   Ok (map (fun rc => mkRoad (fst rc) (Some (snd rc)))
           (combine roads_gdf congestion_levels)))%result.

(** The neighbours the interpolation of a target uses: the raw (unclamped)
    distance and congestion factor of each. *)
Definition neighbours (traffic_df : list FlowSample) (r : RoadSegment) (k : nat)
  : list (Q * Q) :=
  let traffic_coords := map (fun s => (lat s, lon s)) (traffic_valid traffic_df) in
  map (fun e => (fst e, nth (snd e) (valid_values traffic_df) 0))
      (nearest traffic_coords (py (centroid r), px (centroid r)) k).

End Interpolation.

(** Raw weight of a neighbour at distance [d]: [1 / max(d, 1e-10)]. *)
Definition raw_weight (d : Q) : Q := 1 / (if Qltb d EPS then EPS else d).

(** For a list of neighbours (distance, congestion factor): the raw
    weights, the weights normalized by their sum, and the weighted average
    of the congestion factors. *)
Definition raw_weights (nb : list (Q * Q)) : list Q :=
  map (fun e => raw_weight (fst e)) nb.

Definition normalized_weights (nb : list (Q * Q)) : list Q :=
  map (fun w => w / Qsum (raw_weights nb)) (raw_weights nb).

Definition idw_value (nb : list (Q * Q)) : Q :=
  Qsum (Qmul_vec (map snd nb) (normalized_weights nb)).

(** The sum of the congestion factors, each times its raw weight. *)
Definition weighted_sum (nb : list (Q * Q)) : Q :=
  Qsum (map (fun e => snd e * raw_weight (fst e)) nb).

(** A square root on [Q] that is exact on squares of rationals (and rounds
    numerator and denominator down elsewhere); used for concrete runs. *)
Definition isqrtQ (x : Q) : Q :=
  let r := Qred x in
  Z.sqrt (Qnum r) # Pos.sqrt (Qden r).

(** ** visualize_time_machine.py *)

Definition get_time_multiplier (hour : Z) : Q :=
  if ((3 <=? hour) && (hour <? 6))%Z then 0.3
  else if ((7 <=? hour) && (hour <? 9))%Z then 2.0
  else if ((9 <=? hour) && (hour <? 10))%Z then 1.5
  else if ((10 <=? hour) && (hour <? 16))%Z then 1.0
  else if ((16 <=? hour) && (hour <? 17))%Z then 1.5
  else if ((17 <=? hour) && (hour <? 20))%Z then 2.5
  else if ((20 <=? hour) && (hour <? 23))%Z then 1.2
  else if ((23 <=? hour) || (hour <? 3))%Z then 0.5
  else 1.0.

Definition rgb_to_hex (r g b : Z) : string :=
  String "#" (format_02x r ++ format_02x g ++ format_02x b).

Definition DEFAULT_MAX_CONGESTION : Q := 0.6.

(** The three channels computed by lines 108-122 from the normalized value. *)
Definition gradient_channels (normalized : Q) : Z * Z * Z :=
  if Qltb normalized 0.33 then
    let t := normalized / 0.33 in
    (0%Z, py_int (255 * t), 255%Z)
  else if Qltb normalized 0.66 then
    let t := (normalized - 0.33) / 0.33 in
    (py_int (255 * t), 255%Z, py_int (255 * (1 - t)))
  else
    let t := (normalized - 0.66) / 0.34 in
    (255%Z, py_int (255 * (1 - t)), 0%Z).

Definition get_smooth_gradient_color (congestion : option Q) (max_congestion : Q)
  : result string :=
  match congestion with
  | None => Ok "#666666"%string
  | Some c =>
      if Qeq_bool max_congestion 0 then Raise ZeroDivisionError
      else
        let normalized := py_min (c / max_congestion) 1 in
        let '(r, g, b) := gradient_channels normalized in
        Ok (rgb_to_hex r g b)
  end.

(** A feature of an hourly GeoJSON snapshot. *)
Record Feature : Type := mkFeature {
  feature_road : RoadSegment;
  feature_congestion_level : option Q;
  color : string
}.

(** Lines 146-153 for one road: the hourly level is the base level times
    the multiplier, the colour is the gradient colour of that level under
    the default ceiling. *)
Definition hourly_feature (multiplier : Q) (road : Road) : result Feature :=
  let hourly_congestion :=
    option_map (fun c => c * multiplier) (congestion_level road) in
  (col <- get_smooth_gradient_color hourly_congestion DEFAULT_MAX_CONGESTION ;;
   Ok (mkFeature (segment road) hourly_congestion col))%result.

(** [generate_hourly_snapshots]: the dict from hour to snapshot, as the
    list of its items in insertion order. *)
Definition generate_hourly_snapshots (roads_gdf : list Road)
  : result (list (Z * list Feature)) :=
  mapM (fun hour =>
          let multiplier := get_time_multiplier hour in
          (features <- mapM (hourly_feature multiplier) roads_gdf ;;
           Ok (hour, features))%result)
       (map Z.of_nat (seq 0 24)).

(** [snapshots[hour]]. *)
Fixpoint dict_get {V} (d : list (Z * V)) (key : Z) : option V :=
  match d with
  | [] => None
  | (k, v) :: d' => if (k =? key)%Z then Some v else dict_get d' key
  end.

(** The colour column of an hourly snapshot: the gradient colour under the
    default ceiling (which never raises, the ceiling being 0.6). *)
Definition hourly_color (c : option Q) : string :=
  match get_smooth_gradient_color c DEFAULT_MAX_CONGESTION with
  | Ok s => s
  | Raise _ => EmptyString
  end.

Definition coordinate (s : FlowSample) : Q * Q := (lat s, lon s).

(** Row [s] is what [fetch_congestion] returned for the point [pt] in some
    state of the world, and it is the invalid row if the lookup raised
    there. *)
Definition fetched_at (session : Session) (pt : Q * Q) (s : FlowSample) : Prop :=
  exists w0 w1,
    fetch_congestion session (fst pt) (snd pt) w0 = (Ok s, w1) /\
    (forall e w2,
        retrieve_speeds session (fst pt) (snd pt) w0 = (Raise e, w2) ->
        s = invalid_sample (fst pt) (snd pt)).

(** ** A small scan, for concrete runs

    One road whose midpoint is (lat 44.0, lon 26.0); a valid sample on that
    very point, valid samples at planar distances 1 and 2, and an invalid
    sample. *)
Definition example_roads : list RoadSegment :=
  [mkSegment (mkPoint 26.0 44.0) "primary"].

Definition example_traffic : list FlowSample :=
  [mkSample 44.0 26.0 (Some 40) (Some 50) (Some 0.2);
   mkSample 44.0 27.0 (Some 10) (Some 50) (Some 0.8);
   invalid_sample 45.0 26.0;
   mkSample 46.0 26.0 (Some 10) (Some 50) (Some 0.8)].

(** ** Reading a colour back

    ['#rrggbb'] with lower-case digits, as [rgb_to_hex] writes a colour
    whose channels are in 0..255. *)
Definition HEX_DIGITS : string := "0123456789abcdef".

Fixpoint digit_position (c : ascii) (digits : string) (from : Z) : option Z :=
  match digits with
  | EmptyString => None
  | String d rest =>
      if Ascii.eqb c d then Some from else digit_position c rest (from + 1)%Z
  end.

(** The value of a digit is its place in [HEX_DIGITS]. *)
Definition hex_digit_value (c : ascii) : option Z :=
  digit_position c HEX_DIGITS 0%Z.

Definition hex_pair_value (hi lo : ascii) : option Z :=
  match hex_digit_value hi, hex_digit_value lo with
  | Some h, Some l => Some (16 * h + l)%Z
  | _, _ => None
  end.

Definition parse_rgb_hex (s : string) : option (Z * Z * Z) :=
  match s with
  | String "#" (String r1 (String r0 (String g1 (String g0
      (String b1 (String b0 EmptyString)))))) =>
      match hex_pair_value r1 r0, hex_pair_value g1 g0, hex_pair_value b1 b0 with
      | Some r, Some g, Some b => Some (r, g, b)
      | _, _, _ => None
      end
  | _ => None
  end.

(** ** The slider script of the time machine (JavaScript, lines 347-360)

    [updateTimeDisplay(hour)] for the slider values 0..23: the 12-hour
    clock [hour % 12 || 12] with its AM/PM mark, and the period label. *)
Definition js_display_hour (hour : Z) : Z :=
  if (Z.rem hour 12 =? 0)%Z then 12%Z else Z.rem hour 12.

Inductive meridiem : Type := AM | PM.

Definition js_ampm (hour : Z) : meridiem :=
  if (12 <=? hour)%Z then PM else AM.

Inductive period : Type :=
| EarlyMorning | MorningRush | LateMorning | Afternoon
| EveningRush | Evening | Night.

Definition js_period (hour : Z) : period :=
  if ((3 <=? hour) && (hour <? 6))%Z then EarlyMorning
  else if ((6 <=? hour) && (hour <? 9))%Z then MorningRush
  else if ((9 <=? hour) && (hour <? 12))%Z then LateMorning
  else if ((12 <=? hour) && (hour <? 16))%Z then Afternoon
  else if ((16 <=? hour) && (hour <? 20))%Z then EveningRush
  else if ((20 <=? hour) && (hour <? 23))%Z then Evening
  else Night.

Definition is_rush (p : period) : bool :=
  match p with
  | MorningRush | EveningRush => true
  | _ => false
  end.

(** ** The two pipelines built on the interpolation

    [main] of [visualize_time_machine.py] (lines 440-447): the base field
    with [k=3], then the 24 snapshots.  The road network comes from the
    map provider and is an argument here; rendering and saving the map are
    left out. *)
Definition time_machine_main (sqrtQ : Q -> Q) (roads : list RoadSegment)
           (traffic_df : list FlowSample)
  : result (list Road * list (Z * list Feature)) :=
  (roads_gdf <- interpolate_traffic_idw sqrtQ roads traffic_df 3 ;;
   hourly_snapshots <- generate_hourly_snapshots roads_gdf ;;
   Ok (roads_gdf, hourly_snapshots))%result.

(** [format_02x n] is two digits that read back as [n]. *)
Definition byte_round_trips (n : Z) : bool :=
  match format_02x n with
  | String hi (String lo EmptyString) =>
      match hex_pair_value hi lo with
      | Some v => (v =? n)%Z
      | None => false
      end
  | _ => false
  end.

(** The same known value up to [==], or both unknown. *)
Definition same_level (a b : option Q) : Prop :=
  match a, b with
  | Some x, Some y => x == y
  | None, None => True
  | _, _ => False
  end.

(** ** Counting in the grid and in the event log *)

(** The length of [np.arange(start, stop, step)]. *)
Definition arange_length (start stop step : Q) : nat :=
  Z.to_nat (Qceiling ((stop - start) / step)).

Definition is_get (e : event) : bool :=
  match e with EvGet _ _ => true | EvSleep _ => false end.

(** The pacing sleep of the scan loop (0.2 s) and the back-off sleep after
    a 429 (5 s). *)
Definition is_pacing_sleep (e : event) : bool :=
  match e with EvGet _ _ => false | EvSleep s => Qeq_bool s 0.2 end.

Definition is_backoff_sleep (e : event) : bool :=
  match e with EvGet _ _ => false | EvSleep s => Qeq_bool s 5 end.

Definition count_events (p : event -> bool) (l : list event) : nat :=
  List.length (filter p l).

Definition rate_limited (o : get_outcome) : bool :=
  match o with
  | Responded r => (status_code r =? 429)%Z
  | ConnectionFailed | TimedOut => false
  end.

(** The answer that decides a row: the second one after a 429, the first
    one otherwise. *)
Definition final_outcome (session : Session) (n : nat) (la lo : Q) : get_outcome :=
  if rate_limited (session n la lo) then session (S n) la lo else session n la lo.

(** The row that an answer gives. *)
Definition sample_of_outcome (la lo : Q) (o : get_outcome) : FlowSample :=
  match o with
  | Responded r =>
      if ((400 <=? status_code r) && (status_code r <? 600))%Z
      then invalid_sample la lo
      else
        match flowSegmentData r with
        | Some d => sample_of_speeds la lo (currentSpeed d, freeFlowSpeed d)
        | None => invalid_sample la lo
        end
  | ConnectionFailed | TimedOut => invalid_sample la lo
  end.

(** ** The presentation layer of visualize_dense_traffic.py *)

Definition get_traffic_color (congestion : option Q) : string :=
  match congestion with
  | None => "#666666"
  | Some c =>
      if Qltb c 0.2 then "#00FF41"
      else if Qltb c 0.4 then "#FFFF00"
      else if Qltb c 0.7 then "#FF5500"
      else "#FF0000"
  end%string.

(** The [highway] property of a road: a class, a list of classes (merged
    ways), or missing. *)
Inductive highway_value : Type :=
| HwString (s : string)
| HwList (l : list string)
| HwNone.

Definition MAIN_ROAD_CLASSES : list string :=
  ["motorway"; "motorway_link"; "trunk"; "trunk_link"; "primary"; "primary_link"]%string.

Definition get_road_weight (highway_type : highway_value) : result Q :=
  (highway_type <- match highway_type with
                   | HwList [] => Raise IndexError
                   | HwList (first :: _) => Ok (HwString first)
                   | other => Ok other
                   end ;;
   match highway_type with
   | HwString s =>
       if existsb (String.eqb s) MAIN_ROAD_CLASSES then Ok 2.5 else Ok 1.0
   | HwList _ | HwNone => Ok 1.0
   end)%result.

(** The style of a feature on the dense map (lines 243-252). *)
Record Style : Type := mkStyle {
  style_color : string;
  style_weight : Q;
  style_opacity : Q
}.

Definition style_function (congestion : option Q) (highway_type : highway_value)
  : result Style :=
  (weight <- get_road_weight highway_type ;;
   Ok (mkStyle (get_traffic_color congestion) weight 0.85))%result.

(** The traffic distribution printed by [main] (lines 358-368): the four
    band counts.  A comparison with an unknown level is false, so a road
    without a level is in no band. *)
Definition count_levels (p : Q -> bool) (roads_gdf : list Road) : nat :=
  List.length (filter (fun r => match congestion_level r with
                                | Some c => p c
                                | None => false
                                end) roads_gdf).

Record Distribution : Type := mkDistribution {
  empty_roads : nat;
  moving_roads : nat;
  heavy_roads : nat;
  gridlock_roads : nat
}.

Definition traffic_distribution (roads_gdf : list Road) : Distribution :=
  mkDistribution
    (count_levels (fun c => Qltb c 0.2) roads_gdf)
    (count_levels (fun c => Qle_bool 0.2 c && Qltb c 0.4) roads_gdf)
    (count_levels (fun c => Qle_bool 0.4 c && Qltb c 0.7) roads_gdf)
    (count_levels (fun c => Qle_bool 0.7 c) roads_gdf).

(** [main] of [visualize_dense_traffic.py] (lines 356-368): the base field
    with [k=3] and its distribution.  The road network is an argument;
    rendering and saving the map are left out. *)
Definition dense_main (sqrtQ : Q -> Q) (roads : list RoadSegment)
           (traffic_df : list FlowSample) : result (list Road * Distribution) :=
  (roads_gdf <- interpolate_traffic_idw sqrtQ roads traffic_df 3 ;;
   Ok (roads_gdf, traffic_distribution roads_gdf))%result.

(** The number of roads drawn in a given colour on the dense map. *)
Definition count_color (col : string) (roads_gdf : list Road) : nat :=
  List.length (filter (fun r => String.eqb (get_traffic_color (congestion_level r)) col)
                      roads_gdf).

(** ** The road weight of the time machine script (JavaScript, lines 320-330)

    [highway && (highway.includes('motorway') || highway.includes('trunk')
    || highway.includes('primary'))]: a substring test on a string, a
    membership test on an array; an empty string and a missing value are
    falsy. *)
Fixpoint js_string_includes (s sub : string) : bool :=
  String.prefix sub s
  || match s with
     | EmptyString => false
     | String _ s' => js_string_includes s' sub
     end.

Definition js_includes (highway : highway_value) (needle : string) : bool :=
  match highway with
  | HwString s => js_string_includes s needle
  | HwList l => existsb (String.eqb needle) l
  | HwNone => false
  end.

Definition js_truthy (highway : highway_value) : bool :=
  match highway with
  | HwString EmptyString => false
  | HwString _ => true
  | HwList _ => true
  | HwNone => false
  end.

Definition js_is_main_road (highway : highway_value) : bool :=
  js_truthy highway
  && (js_includes highway "motorway" || js_includes highway "trunk"
      || js_includes highway "primary").

Definition js_road_weight (highway : highway_value) : Q :=
  if js_is_main_road highway then 2.5 else 1.0.

(** ** The two callers of the scan: [main] of scan_traffic.py and
    [log_hourly_snapshot] of log_hourly_traffic.py

    Both build [pd.DataFrame(results)] from the rows of the scan and read
    its column [congestion_factor].  A frame built from no rows has no
    columns, and reading the column raises KeyError. *)
Inductive script_error : Type :=
| KeyError (key : string)
| Uncaught (e : exc).

Inductive outcome (A : Type) : Type :=
| Returned (a : A)
| Crashed (e : script_error).
Arguments Returned {A} a.
Arguments Crashed {A} e.

(** [df["congestion_factor"]]. *)
Definition congestion_factor_column (df : list FlowSample)
  : outcome (list (option Q)) :=
  match df with
  | [] => Crashed (KeyError "congestion_factor")
  | _ :: _ => Returned (map congestion_factor df)
  end.

(** The values of a column that are not NaN, and pandas' [mean] and [max],
    which skip NaN and are NaN when nothing is left. *)
Definition present (column : list (option Q)) : list Q :=
  flat_map (fun v => match v with Some c => [c] | None => [] end) column.

Definition column_mean (column : list (option Q)) : option Q :=
  match present column with
  | [] => None
  | vs => Some (Qsum vs / inject_Z (Z.of_nat (List.length vs)))
  end.

Definition column_max (column : list (option Q)) : option Q :=
  match present column with
  | [] => None
  | v :: vs => Some (fold_left (fun m x => if Qltb m x then x else m) vs v)
  end.

(** [if not API_KEY]: the variable is unset or empty. *)
Definition api_key_missing (api_key : option string) : bool :=
  match api_key with
  | None => true
  | Some EmptyString => true
  | Some (String _ _) => false
  end.

(** What [main] prints about the scan (lines 190-195) and saves. *)
Record ScanReport : Type := mkReport {
  total_points : nat;
  valid_points : nat;
  valid_percent : Q;
  failed_queries : nat
}.

(** [main] of scan_traffic.py (lines 165-205), with the configured box and
    spacing as arguments.  [Returned None] is the early return without an
    API key; [Returned (Some (report, rows))] is a run that printed the
    report and saved the rows as CSV. *)
Definition scan_main (api_key : option string) (session : Session)
           (bbox : BBox) (spacing : Q)
  : world -> outcome (option (ScanReport * list FlowSample)) * world :=
  fun w =>
    if api_key_missing api_key then (Returned None, w)
    else
      match generate_grid bbox spacing with
      | Raise e => (Crashed (Uncaught e), w)
      | Ok grid =>
          match scan_traffic_grid session grid w with
          | (Raise e, w') => (Crashed (Uncaught e), w')
          | (Ok df, w') =>
              match congestion_factor_column df with
              | Crashed e => (Crashed e, w')
              | Returned column =>
                  let valid_data := present column in
                  if (List.length df =? 0)%nat
                  then (Crashed (Uncaught ZeroDivisionError), w')
                  else
                    let percent :=
                      inject_Z (Z.of_nat (List.length valid_data))
                      / inject_Z (Z.of_nat (List.length df)) * 100 in
                    (Returned
                       (Some (mkReport (List.length df) (List.length valid_data)
                                       percent
                                       (List.length df - List.length valid_data),
                              df)),
                     w')
              end
          end
      end.

(** [datetime.now()] as [log_hourly_snapshot] uses it: the ISO string, the
    hour, and the date as [%Y%m%d]. *)
Record Timestamp : Type := mkTimestamp {
  isoformat : string;
  ts_hour : Z;
  date_str : string
}.

(** Format specification [02d] applied to an int. *)
Definition format_02d (n : Z) : string :=
  let digits := DecimalString.NilZero.string_of_uint (N.to_uint (Z.abs_N n)) in
  if (n <? 0)%Z then String "-" digits
  else if (String.length digits <? 2)%nat then String "0" digits
  else digits.

Definition snapshot_file_name (now : Timestamp) (extension : string) : string :=
  ("traffic_" ++ date_str now ++ "_" ++ format_02d (ts_hour now) ++ "00." ++ extension)%string.

Record SnapshotMetadata : Type := mkMetadata {
  meta_timestamp : string;
  meta_hour : Z;
  meta_date : string;
  meta_grid_points : nat;
  meta_valid_points : nat;
  meta_mean_congestion : option Q;
  meta_max_congestion : option Q
}.

(** One run of [log_hourly_snapshot]: the CSV and the JSON file written
    (name and content), and how the function ended. *)
Record SnapshotRun : Type := mkRun {
  csv_written : option (string * list FlowSample);
  json_written : option (string * SnapshotMetadata);
  ended : outcome bool
}.

(** [log_hourly_snapshot] (lines 40-102), with the clock reading and the
    configured box and spacing as arguments. *)
Definition log_hourly_snapshot (now : Timestamp) (api_key : option string)
           (session : Session) (bbox : BBox) (spacing : Q)
  : world -> SnapshotRun * world :=
  fun w =>
    if api_key_missing api_key then (mkRun None None (Returned false), w)
    else
      match generate_grid bbox spacing with
      | Raise e => (mkRun None None (Crashed (Uncaught e)), w)
      | Ok grid =>
          match scan_traffic_grid session grid w with
          | (Raise e, w') => (mkRun None None (Crashed (Uncaught e)), w')
          | (Ok df, w') =>
              let csv := Some (snapshot_file_name now "csv", df) in
              match congestion_factor_column df with
              | Crashed e => (mkRun csv None (Crashed e), w')
              | Returned column =>
                  let metadata :=
                    mkMetadata (isoformat now) (ts_hour now) (date_str now)
                      (List.length grid)
                      (List.length (present column))
                      (if (0 <? List.length df)%nat then column_mean column else Some 0)
                      (if (0 <? List.length df)%nat then column_max column else Some 0) in
                  (mkRun csv (Some (snapshot_file_name now "json", metadata))
                         (Returned true),
                   w')
              end
          end
      end.

(** [format_02d n] is two digits that read back as [n]. *)
Definition two_digits_round_trip (n : Z) : bool :=
  match format_02d n with
  | String hi (String lo EmptyString) =>
      match hex_digit_value hi, hex_digit_value lo with
      | Some h, Some l => ((h <? 10) && (l <? 10) && (10 * h + l =? n))%Z
      | _, _ => false
      end
  | _ => false
  end.

(** ** A small session, for concrete runs

    The first request is rate limited and its retry succeeds, the next one
    times out, the others succeed. *)
Definition example_session : Session :=
  fun n _ _ =>
    match n with
    | 0%nat => Responded (mkResponse 429 None)
    | 1%nat => Responded (mkResponse 200 (Some (mkFlow (Some 30) (Some 50))))
    | 2%nat => TimedOut
    | 3%nat => Responded (mkResponse 200 (Some (mkFlow (Some 60) (Some 50))))
    | _ => Responded (mkResponse 200 (Some (mkFlow (Some 20) (Some 40))))
    end.

Definition example_grid : list (Q * Q) :=
  [(44.0, 26.0); (44.0, 26.5); (44.5, 26.0); (44.5, 26.5)].

Definition example_rows : list FlowSample :=
  match fst (scan_traffic_grid example_session example_grid (mkWorld 0 [])) with
  | Ok rows => rows
  | Raise _ => []
  end.

Definition example_base : list Road :=
  [mkRoad (mkSegment (mkPoint 26.1 44.4) "primary") (Some 0.3);
   mkRoad (mkSegment (mkPoint 26.0 44.5) "residential") None].

Definition example_now : Timestamp := mkTimestamp "2025-12-06T08:15:00" 8 "20251206".

(** Two roads of different classes with the same midpoint, and their
    interpolation. *)
Definition example_twin_roads : list RoadSegment :=
  [mkSegment (mkPoint 26.0 44.0) "primary";
   mkSegment (mkPoint 26.0 44.0) "residential"].

Definition example_twin_field : list Road :=
  match interpolate_traffic_idw isqrtQ example_twin_roads example_traffic 3 with
  | Ok out => out
  | Raise _ => []
  end.

(** ** Binary64

    Python's [float] and numpy's [float64] are IEEE 754 binary64 numbers.
    Above, an operation on floats is read as the exact operation on the
    rationals they denote.  Where a property depends on the rounding, the
    operation is the exact one followed by [round_binary64]: the nearest
    number with a 53-bit significand, ties to the even significand, with
    the subnormal numbers (multiples of 2^-1074) below 2^-1022.  The
    exponent is not bounded above: a result of magnitude 2^1024 or more,
    which binary64 turns into an infinity, is outside the model. *)
Definition pow2 (e : Z) : Q := Qpower 2 e.

(** The exponent [e] with [2^e <= x < 2^(e+1)], for a positive [x]. *)
Definition binade (x : Q) : Z :=
  let e := (Z.log2 (Qnum x) - Z.log2 (Zpos (Qden x)))%Z in
  if Qle_bool (pow2 e) x then e else (e - 1)%Z.

(** The nearest integer, a tie going to the even one. *)
Definition rne (x : Q) : Z :=
  let f := Qfloor x in
  match Qcompare (x - inject_Z f) (1 # 2) with
  | Lt => f
  | Gt => (f + 1)%Z
  | Eq => if Z.even f then f else (f + 1)%Z
  end.

(** The exponent of the unit in the last place of the floats around [x]. *)
Definition quantum (x : Q) : Z := Z.max (binade x - 52) (-1074).

Definition round_positive (x : Q) : Q :=
  let q := quantum x in inject_Z (rne (x / pow2 q)) * pow2 q.

Definition round_binary64 (x : Q) : Q :=
  match Qnum x with
  | Z0 => 0
  | Zpos _ => round_positive x
  | Zneg _ => - round_positive (- x)
  end.

Definition UNIT_ROUNDOFF : Q := pow2 (-53).
Definition HALF_SUBNORMAL_STEP : Q := pow2 (-1075).
Definition SMALLEST_NORMAL : Q := pow2 (-1022).

(** The correctly rounded square root: the integer square root of
    [x * 4^p] carries more than 60 bits, and when it is not exact the
    half-way point to the next integer rounds like the root itself. *)
Definition sqrt_binary64 (x : Q) : Q :=
  if Qle_bool x 0 then 0
  else
    let p := (64 - binade x / 2)%Z in
    let scaled := x * pow2 (2 * p) in
    let n := Qfloor scaled in
    let r := Z.sqrt n in
    if Qeq_bool (inject_Z (r * r)) scaled
    then round_binary64 (inject_Z r * pow2 (- p))
    else round_binary64 (inject_Z (2 * r + 1) * pow2 (- p - 1)).

(** ** The float computations, with the rounding written out

    [Rounded.f rnd] is the function [f] of the scripts with every float
    operation followed by [rnd]; [rnd := round_binary64] is what the
    interpreter runs. *)
Module Rounded.

Section Arithmetic.

Variable rnd : Q -> Q.

Definition add (a b : Q) : Q := rnd (a + b).
Definition sub (a b : Q) : Q := rnd (a - b).
Definition mul (a b : Q) : Q := rnd (a * b).
Definition div (a b : Q) : Q := rnd (a / b).

(** [a.sum()] and [np.sum(a)] on a vector of fewer than eight floats:
    numpy adds them in index order, starting from 0.0.  (From eight
    elements on it adds in blocks; the properties below that depend on the
    order are stated for fewer than eight.) *)
Definition np_sum (a : list Q) : Q := fold_left add a 0.

Fixpoint mul_vec (xs ys : list Q) : list Q :=
  match xs, ys with
  | x :: xs', y :: ys' => mul x y :: mul_vec xs' ys'
  | _, _ => []
  end.

(** [np.arange(start, stop, step)] on Python floats (numpy's
    [PyArray_ArangeObj]).  The length is the ceiling of the float
    [(stop - start) / step], except that a non-zero difference whose
    quotient underflows to zero gives length 1 (0 when the quotient is
    negative).  The first two elements are [start] and [start + step];
    element [i >= 2] is [start + i * delta] with
    [delta = (start + step) - start]. *)
Definition arange_length (start stop step : Q) : nat :=
  let span := sub stop start in
  let value := div span step in
  if Qeq_bool value 0 && negb (Qeq_bool span 0)
  then (if Qle_bool 0 (span / step) then 1%nat else 0%nat)
  else Z.to_nat (Qceiling value).

Definition arange_element (start step : Q) (i : nat) : Q :=
  match i with
  | 0%nat => start
  | 1%nat => add start step
  | _ => add start (mul (inject_Z (Z.of_nat i)) (sub (add start step) start))
  end.

Definition np_arange (start stop step : Q) : result (list Q) :=
  if Qeq_bool step 0 then Raise ZeroDivisionError
  else Ok (map (arange_element start step) (seq 0 (arange_length start stop step))).

(** The literals of scan_traffic.py as floats. *)
Definition BBOX : BBox := mkBBox (rnd 44.33) (rnd 44.56) (rnd 25.96) (rnd 26.23).
Definition GRID_SPACING : Q := rnd 0.005.

Definition generate_grid (bbox : BBox) (spacing : Q) : result (list (Q * Q)) :=
  (lats <- np_arange (lat_min bbox) (lat_max bbox) spacing ;;
   lons <- np_arange (lon_min bbox) (lon_max bbox) spacing ;;
   Ok (flat_map (fun la => map (fun lo => (la, lo)) lons) lats))%result.

(** The Euclidean distance as the tree computes it for two coordinates:
    the differences, their squares added in coordinate order, and the
    square root. *)
Definition planar_distance (sqrt : Q -> Q) (a b : Q * Q) : Q :=
  let d0 := sub (fst a) (fst b) in
  let d1 := sub (snd a) (snd b) in
  sqrt (add (mul d0 d0) (mul d1 d1)).

Definition np_reciprocal (d : xdist) : Q :=
  match d with
  | Finite q => div 1 q
  | Infinite => 0
  end.

Section Tree.

(** What the interpolation takes from scipy's k-d tree: its distance
    between two coordinates and the order in which it ranks the candidate
    neighbours (distance, data index).  The tree returns the neighbours by
    increasing distance; which of several equidistant candidates it keeps
    is an accident of its heap, so the order is a parameter. *)
Variable tree_distance : Q * Q -> Q * Q -> Q.
Variable tree_order : list (Q * nat) -> list (Q * nat).

Definition candidates (data : list (Q * Q)) (x : Q * Q) : list (Q * nat) :=
  combine (map (tree_distance x) data) (seq 0 (List.length data)).

Definition nearest (data : list (Q * Q)) (x : Q * Q) (k : nat) : list (Q * nat) :=
  firstn k (tree_order (candidates data x)).

Definition query_row (data : list (Q * Q)) (x : Q * Q) (k : nat)
  : list xdist * list nat :=
  let found := nearest data x k in
  let missing := (k - List.length found)%nat in
  (map (fun e => Finite (fst e)) found ++ repeat Infinite missing,
   map snd found ++ repeat (List.length data) missing).

Definition cKDTree_query (data xs : list (Q * Q)) (k : nat)
  : result (list (list xdist * list nat)) :=
  match xs with
  | [] => Raise ValueError
  | _ :: _ =>
      if (k =? 0)%nat then Raise ValueError
      else Ok (map (fun x => query_row data x k) xs)
  end.

(** The body of the loop, lines 114-127, for one road. *)
Definition idw_row (traffic_congestion : list Q) (row : list xdist * list nat)
  : result Q :=
  (neighbor_congestion <- np_take traffic_congestion (snd row) ;;
   let neighbor_distances := map (fun d => np_maximum d (rnd EPS)) (fst row) in
   let weights := map np_reciprocal neighbor_distances in
   let total := np_sum weights in
   let weights := map (fun w => div w total) weights in
   Ok (np_sum (mul_vec neighbor_congestion weights)))%result.

Definition interpolate_traffic_idw (roads_gdf : list RoadSegment)
           (traffic_df : list FlowSample) (k : nat) : result (list Road) :=
  let traffic_coords := map (fun s => (lat s, lon s)) (traffic_valid traffic_df) in
  let traffic_congestion := valid_values traffic_df in
  let road_coords :=
    map (fun r => (py (centroid r), px (centroid r))) roads_gdf in
  (rows <- cKDTree_query traffic_coords road_coords k ;;
   congestion_levels <- mapM (idw_row traffic_congestion) rows ;;
   Ok (map (fun rc => mkRoad (fst rc) (Some (snd rc)))
           (combine roads_gdf congestion_levels)))%result.

(** The neighbours of a road as the tree returns them (distance, data
    index), and with the congestion factor in place of the index. *)
Definition neighbour_indices (traffic_df : list FlowSample) (r : RoadSegment) (k : nat)
  : list (Q * nat) :=
  nearest (map (fun s => (lat s, lon s)) (traffic_valid traffic_df))
          (py (centroid r), px (centroid r)) k.

Definition neighbours (traffic_df : list FlowSample) (r : RoadSegment) (k : nat)
  : list (Q * Q) :=
  map (fun e => (fst e, nth (snd e) (valid_values traffic_df) 0))
      (neighbour_indices traffic_df r k).

End Tree.

(** For a list of neighbours (distance, congestion factor): the raw
    weights, the normalized weights and the value of lines 119-126. *)
Definition raw_weight (d : Q) : Q := div 1 (if Qltb d (rnd EPS) then rnd EPS else d).

Definition raw_weights (nb : list (Q * Q)) : list Q :=
  map (fun e => raw_weight (fst e)) nb.

Definition normalized_weights (nb : list (Q * Q)) : list Q :=
  map (fun w => div w (np_sum (raw_weights nb))) (raw_weights nb).

Definition idw_value (nb : list (Q * Q)) : Q :=
  np_sum (mul_vec (map snd nb) (normalized_weights nb)).

End Arithmetic.

End Rounded.

(** The tree ranks by distance: its order is a rearrangement of the
    candidates by increasing distance. *)
Definition ranks_by_distance (tree_order : list (Q * nat) -> list (Q * nat)) : Prop :=
  forall l,
    Permutation (tree_order l) l /\
    StronglySorted (fun a b => fst a <= fst b) (tree_order l).

(** The largest distance whose reciprocal is still a normal number. *)
Definition MAX_DISTANCE : Q := pow2 1021.

(** The weighted mean of the neighbours' congestion factors under
    weights [w] (exact quotient of exact sums). *)
Definition weighted_mean (ws vs : list Q) : Q := Qsum (Qmul_vec vs ws) / Qsum ws.

(** ** Measuring the rounding of a sum of products *)

(** [b] to the power [n]. *)
Fixpoint npow (b : Q) (n : nat) : Q :=
  match n with
  | O => 1
  | S m => b * npow b m
  end.

(** How far [k] rounded additions, a rounded division and a rounded
    product can move a non-negative sum up or down, for a unit roundoff
    [u]; [rounding_slack] is what roundings in the subnormal range add. *)
Definition rounding_gain (u : Q) (k : nat) : Q :=
  npow (1 + u) (k + 2) / npow (1 - u) k.

Definition rounding_loss (u : Q) (k : nat) : Q :=
  npow (1 - u) (k + 2) / npow (1 + u) k.

Definition rounding_slack (u eta hi : Q) (k : nat) : Q :=
  inject_Z (Z.of_nat k) * eta * (hi * (1 + u) + 2) * npow (1 + u) k.

(** What the roundings of one level add up to, for fewer than eight
    neighbours with congestion factors up to 1. *)
Definition ROUNDING_TOLERANCE : Q := pow2 (-48).
Definition UNDERFLOW_TOLERANCE : Q := pow2 (-1070).

(** ** Small scans in binary64, for concrete runs

    The tree's distance in binary64, one road at the origin, and three
    scans of three valid samples: factor 1.0 at distances 2, 3 and 5;
    factor 0.2 at distances 5, 10 and 13; factors 0.1, 0.2 and 0.3 at
    distance 1. *)
Definition binary64_distance : Q * Q -> Q * Q -> Q :=
  Rounded.planar_distance round_binary64 sqrt_binary64.

Definition example_origin_road : list RoadSegment :=
  [mkSegment (mkPoint 0 0) "primary"].

Definition binary64_sample (la lo c : Q) : FlowSample :=
  mkSample la lo None None (Some (round_binary64 c)).

Definition example_jammed_traffic : list FlowSample :=
  [binary64_sample 0 2 1.0; binary64_sample 3 0 1.0; binary64_sample 3 4 1.0].

Definition example_uniform_traffic : list FlowSample :=
  [binary64_sample 3 4 0.2; binary64_sample 6 8 0.2; binary64_sample 5 12 0.2].

Definition example_ring_traffic : list FlowSample :=
  [binary64_sample 0 1 0.1; binary64_sample 1 0 0.2; binary64_sample 0 (-1) 0.3].

(** ** The specification's own words, for comparison *)

(** The hour bands of section 4.4. *)
Definition spec_multiplier_curve (hour : Z) : Q :=
  if ((3 <=? hour) && (hour <? 6))%Z then 0.3
  else if ((6 <=? hour) && (hour <? 9))%Z then 2.0
  else if ((9 <=? hour) && (hour <? 10))%Z then 1.5
  else if ((10 <=? hour) && (hour <? 16))%Z then 1.0
  else if ((16 <=? hour) && (hour <? 17))%Z then 1.5
  else if ((17 <=? hour) && (hour <? 20))%Z then 2.5
  else if ((20 <=? hour) && (hour <? 23))%Z then 1.2
  else 0.5.

(** [clamp(v, lo, hi)] of section 4.4. *)
Definition spec_clamp (v lo hi : Q) : Q := Qmax lo (Qmin v hi).

(* ===================================================================== *)
(** * Part II.  Properties *)
(* ===================================================================== *)

(** ** Arithmetic helpers *)

Lemma Qltb_lt (x y : Q) : Qltb x y = true <-> x < y.
Proof.
  unfold Qltb. rewrite negb_true_iff. split; intro H.
  - apply Qnot_le_lt. intro L. apply Qle_bool_iff in L. congruence.
  - destruct (Qle_bool y x) eqn:E; [| reflexivity].
    apply Qle_bool_iff in E. lra.
Qed.

Lemma Qltb_ge (x y : Q) : Qltb x y = false <-> y <= x.
Proof.
  unfold Qltb. rewrite negb_false_iff. apply Qle_bool_iff.
Qed.

Lemma Qltb_comp (x x' y y' : Q) : x == x' -> y == y' -> Qltb x y = Qltb x' y'.
Proof.
  intros Hx Hy. unfold Qltb. f_equal. apply Qleb_comp; assumption.
Qed.

Lemma py_int_comp (x y : Q) : x == y -> py_int x = py_int y.
Proof.
  intro H. unfold py_int.
  rewrite (Qleb_comp 0 0 (Qeq_refl 0) x y H).
  rewrite (Qfloor_comp x y H), (Qceiling_comp x y H). reflexivity.
Qed.

Lemma py_clamp_spec (x : Q) : py_max 0 (py_min 1 x) == spec_clamp x 0 1.
Proof.
  unfold py_max, py_min, spec_clamp.
  destruct (Qltb x 1) eqn:E1.
  - apply Qltb_lt in E1. rewrite (Q.min_l x 1) by lra.
    destruct (Qltb 0 x) eqn:E0.
    + apply Qltb_lt in E0. rewrite Q.max_r by lra. reflexivity.
    + apply Qltb_ge in E0. rewrite Q.max_l by lra. reflexivity.
  - apply Qltb_ge in E1. rewrite (Q.min_r x 1) by lra.
    assert (E0 : Qltb 0 1 = true) by reflexivity. rewrite E0.
    rewrite Q.max_r by lra. reflexivity.
Qed.

Lemma py_clamp_range (x : Q) : 0 <= py_max 0 (py_min 1 x) <= 1.
Proof.
  unfold py_max, py_min.
  destruct (Qltb x 1) eqn:E1.
  - apply Qltb_lt in E1. destruct (Qltb 0 x) eqn:E0.
    + apply Qltb_lt in E0. lra.
    + lra.
  - assert (E0 : Qltb 0 1 = true) by reflexivity. rewrite E0. lra.
Qed.

(** ** Lists processed by a function that may raise *)

Lemma mapM_total {A B} (f : A -> result B) (g : A -> B) (xs : list A) :
  (forall x, In x xs -> f x = Ok (g x)) -> mapM f xs = Ok (map g xs).
Proof.
  induction xs as [| x xs IH]; intro H; simpl.
  - reflexivity.
  - rewrite (H x (or_introl eq_refl)). simpl.
    rewrite IH by (intros y Hy; apply H; right; exact Hy).
    reflexivity.
Qed.

Lemma dict_get_map {V} (f : Z -> V) (keys : list Z) (key : Z) :
  In key keys -> dict_get (map (fun h => (h, f h)) keys) key = Some (f key).
Proof.
  induction keys as [| h keys IH]; intro H; simpl.
  - destruct H.
  - destruct (Z.eqb_spec h key) as [-> | Hne].
    + reflexivity.
    + destruct H as [H | H]; [contradiction | exact (IH H)].
Qed.

(** ** The hour-of-day curve *)

(** C2, counterexample: hour 6 is not in the morning-rush band of the
    code, which starts at 7; it takes the final [else] branch. *)
Lemma get_time_multiplier_6_is_not_2 :
  get_time_multiplier 6 == 1.0 /\ ~ get_time_multiplier 6 == 2.0
  /\ spec_multiplier_curve 6 == 2.0.
Proof.
  repeat split; try reflexivity. intro H. discriminate H.
Qed.

(** C2, as amended: on the hours 0..23 the curve is the step function with
    bands [3,6) -> 0.3, [7,9) -> 2.0, [9,10) -> 1.5, [10,16) -> 1.0,
    [16,17) -> 1.5, [17,20) -> 2.5, [20,23) -> 1.2, {23} and [0,3) -> 0.5;
    hour 6 lies in no band and gets 1.0.  So the curve agrees with the
    specified one at every hour except 6. *)
Theorem get_time_multiplier_bands (hour : Z) :
  (0 <= hour < 24)%Z ->
  ((3 <= hour < 6)%Z -> get_time_multiplier hour = 0.3) /\
  (hour = 6%Z -> get_time_multiplier hour = 1.0) /\
  ((7 <= hour < 9)%Z -> get_time_multiplier hour = 2.0) /\
  ((9 <= hour < 10)%Z -> get_time_multiplier hour = 1.5) /\
  ((10 <= hour < 16)%Z -> get_time_multiplier hour = 1.0) /\
  ((16 <= hour < 17)%Z -> get_time_multiplier hour = 1.5) /\
  ((17 <= hour < 20)%Z -> get_time_multiplier hour = 2.5) /\
  ((20 <= hour < 23)%Z -> get_time_multiplier hour = 1.2) /\
  ((23 <= hour \/ hour < 3)%Z -> get_time_multiplier hour = 0.5) /\
  (hour <> 6%Z -> get_time_multiplier hour = spec_multiplier_curve hour).
Proof.
  intro Hrange.
  assert (H : In hour (map Z.of_nat (seq 0 24))) by (simpl; lia).
  simpl in H.
  repeat (destruct H as [<- | H];
          [repeat split; intros; try reflexivity; lia |]).
  destruct H.
Qed.

Lemma get_time_multiplier_bands_witness :
  get_time_multiplier 7 = 2.0 /\ get_time_multiplier 7 = spec_multiplier_curve 7.
Proof.
  pose proof (get_time_multiplier_bands 7 ltac:(lia)) as H.
  split.
  - apply H. lia.
  - apply H. lia.
Defined.

(** ** The colour gradient *)

Lemma gradient_channels_comp (n n' : Q) :
  n == n' -> gradient_channels n = gradient_channels n'.
Proof.
  intro H. unfold gradient_channels.
  rewrite (Qltb_comp n n' 0.33 0.33 H (Qeq_refl _)).
  rewrite (Qltb_comp n n' 0.66 0.66 H (Qeq_refl _)).
  rewrite (py_int_comp (255 * (n / 0.33)) (255 * (n' / 0.33)))
    by (rewrite H; reflexivity).
  rewrite (py_int_comp (255 * ((n - 0.33) / 0.33)) (255 * ((n' - 0.33) / 0.33)))
    by (rewrite H; reflexivity).
  rewrite (py_int_comp (255 * (1 - (n - 0.33) / 0.33)) (255 * (1 - (n' - 0.33) / 0.33)))
    by (rewrite H; reflexivity).
  rewrite (py_int_comp (255 * (1 - (n - 0.66) / 0.34)) (255 * (1 - (n' - 0.66) / 0.34)))
    by (rewrite H; reflexivity).
  reflexivity.
Qed.

Lemma gradient_color_of_normalized (c m n : Q) :
  0 < m -> py_min (c / m) 1 == n ->
  get_smooth_gradient_color (Some c) m =
  Ok (let '(r, g, b) := gradient_channels n in rgb_to_hex r g b).
Proof.
  intros Hm Hn. unfold get_smooth_gradient_color.
  destruct (Qeq_bool m 0) eqn:E.
  - apply Qeq_bool_iff in E. lra.
  - rewrite (gradient_channels_comp _ _ Hn).
    destruct (gradient_channels n) as [[r g] b]. reflexivity.
Qed.

(** C3, counterexample: congestion 0.2 against the ceiling 0.6 is the
    normalized value 1/3; it is past the code's first breakpoint 0.33, so
    red is already 2 and blue 252: not pure cyan. *)
Lemma gradient_one_third_is_not_cyan :
  0.2 / 0.6 == 1 # 3 /\
  get_smooth_gradient_color (Some 0.2) 0.6 = Ok "#02fffc"%string /\
  get_smooth_gradient_color (Some 0.2) 0.6 <> Ok "#00ffff"%string.
Proof.
  split; [reflexivity |]. split; [reflexivity |]. discriminate.
Qed.

Lemma py_int_range (x : Q) (hi : Z) :
  0 <= x -> x < inject_Z hi -> (0 <= py_int x < hi)%Z.
Proof.
  intros H0 Hhi. unfold py_int.
  rewrite (proj2 (Qle_bool_iff 0 x) H0). split.
  - change 0%Z with (Qfloor 0). apply Qfloor_resp_le. exact H0.
  - rewrite Zlt_Qlt. pose proof (Qfloor_le x). lra.
Qed.

(** The three segments of the gradient: below 0.33 only green moves, from
    0.33 to 0.66 red and blue move, from 0.66 on only green moves. *)
Lemma gradient_channels_segments (n : Q) :
  0 <= n <= 1 ->
  exists r g b,
    gradient_channels n = (r, g, b) /\
    (n < 0.33 -> r = 0%Z /\ (0 <= g < 255)%Z /\ b = 255%Z) /\
    (0.33 <= n < 0.66 -> (0 <= r < 255)%Z /\ g = 255%Z /\ (0 <= b <= 255)%Z) /\
    (0.66 <= n -> r = 255%Z /\ (0 <= g <= 255)%Z /\ b = 0%Z).
Proof.
  intros [H0 H1]. unfold gradient_channels.
  assert (D33 : forall y, y / 0.33 == y * (100 # 33)) by (intro y; reflexivity).
  assert (D34 : forall y, y / 0.34 == y * (100 # 34)) by (intro y; reflexivity).
  destruct (Qltb n 0.33) eqn:E1; [| destruct (Qltb n 0.66) eqn:E2].
  - apply Qltb_lt in E1. do 3 eexists. split; [reflexivity |].
    split; [| split]; intro H; [| lra | lra].
    split; [reflexivity |]. split; [| reflexivity].
    apply py_int_range; [| change (inject_Z 255) with 255]; rewrite D33; lra.
  - apply Qltb_ge in E1. apply Qltb_lt in E2. do 3 eexists. split; [reflexivity |].
    split; [| split]; intro H; [lra | | lra].
    split; [| split; [reflexivity |]].
    + apply py_int_range; [| change (inject_Z 255) with 255]; rewrite D33; lra.
    + assert ((0 <= py_int (255 * (1 - (n - 0.33) / 0.33)) < 256)%Z); [| lia].
      apply py_int_range; [| change (inject_Z 256) with 256]; rewrite D33; lra.
  - apply Qltb_ge in E1. apply Qltb_ge in E2. do 3 eexists. split; [reflexivity |].
    split; [| split]; intro H; [lra | lra |].
    split; [reflexivity |]. split; [| reflexivity].
    assert ((0 <= py_int (255 * (1 - (n - 0.66) / 0.34)) < 256)%Z); [| lia].
    apply py_int_range; [| change (inject_Z 256) with 256]; rewrite D34; lra.
Qed.

(** C3, as amended: the breakpoints of the gradient are the normalized
    values 0, 0.33, 0.66 and 1: normalized 0 gives pure blue, 0.33 pure
    cyan, 0.66 pure yellow, 1 (and anything the cap brings to 1) pure red,
    and an unknown value gives the neutral #666666.  The three segments are
    [0, 0.33), [0.33, 0.66) and [0.66, 1], of widths 0.33, 0.33 and 0.34. *)
Theorem gradient_breakpoints (c m : Q) :
  0 < m ->
  get_smooth_gradient_color None m = Ok "#666666"%string /\
  (c / m == 0 -> get_smooth_gradient_color (Some c) m = Ok "#0000ff"%string) /\
  (c / m == 0.33 -> get_smooth_gradient_color (Some c) m = Ok "#00ffff"%string) /\
  (c / m == 0.66 -> get_smooth_gradient_color (Some c) m = Ok "#ffff00"%string) /\
  (1 <= c / m -> get_smooth_gradient_color (Some c) m = Ok "#ff0000"%string) /\
  (0 <= c ->
   exists r g b,
     get_smooth_gradient_color (Some c) m = Ok (rgb_to_hex r g b) /\
     (c / m < 0.33 -> r = 0%Z /\ (0 <= g < 255)%Z /\ b = 255%Z) /\
     (0.33 <= c / m < 0.66 -> (0 <= r < 255)%Z /\ g = 255%Z /\ (0 <= b <= 255)%Z) /\
     (0.66 <= c / m -> r = 255%Z /\ (0 <= g <= 255)%Z /\ b = 0%Z)).
Proof.
  intro Hm. split; [reflexivity |].
  assert (Hmin : forall n, c / m == n -> n <= 1 -> py_min (c / m) 1 == n).
  { intros n Hn Hle. unfold py_min. destruct (Qltb 1 (c / m)) eqn:E.
    - apply Qltb_lt in E. lra.
    - exact Hn. }
  split; [| split; [| split; [| split]]].
  - intro H. rewrite (gradient_color_of_normalized c m 0 Hm); [reflexivity |].
    apply Hmin; [exact H | lra].
  - intro H. rewrite (gradient_color_of_normalized c m 0.33 Hm); [reflexivity |].
    apply Hmin; [exact H | lra].
  - intro H. rewrite (gradient_color_of_normalized c m 0.66 Hm); [reflexivity |].
    apply Hmin; [exact H | lra].
  - intro H. rewrite (gradient_color_of_normalized c m 1 Hm); [reflexivity |].
    unfold py_min. destruct (Qltb 1 (c / m)) eqn:E.
    + reflexivity.
    + apply Qltb_ge in E. lra.
  - intro Hc.
    assert (Hq : 0 <= c / m) by (apply Qle_shift_div_l; lra).
    set (n := py_min (c / m) 1).
    assert (Hn : 0 <= n <= 1 /\ (n < 0.33 <-> c / m < 0.33) /\
                 (n < 0.66 <-> c / m < 0.66)).
    { unfold n, py_min. destruct (Qltb 1 (c / m)) eqn:E.
      - apply Qltb_lt in E. repeat split; intros; lra.
      - apply Qltb_ge in E. repeat split; intros; lra. }
    destruct Hn as (Hrange & H33 & H66).
    destruct (gradient_channels_segments n Hrange) as (r & g & b & Hch & S1 & S2 & S3).
    exists r, g, b. split.
    + rewrite (gradient_color_of_normalized c m n Hm (Qeq_refl _)).
      rewrite Hch. reflexivity.
    + split; [| split]; intro H.
      * apply S1. apply H33. exact H.
      * apply S2. split.
        -- apply Qnot_lt_le. intro C. apply H33 in C. lra.
        -- apply H66. apply H.
      * apply S3. apply Qnot_lt_le. intro C. apply H66 in C. lra.
Qed.

Lemma gradient_breakpoints_witness :
  get_smooth_gradient_color (Some 0.198) 0.6 = Ok "#00ffff"%string /\
  get_smooth_gradient_color (Some 0.396) 0.6 = Ok "#ffff00"%string /\
  get_smooth_gradient_color (Some 0.6) 0.6 = Ok "#ff0000"%string.
Proof.
  assert (Hm : 0 < 0.6) by reflexivity.
  split; [| split].
  - apply (gradient_breakpoints 0.198 0.6 Hm). reflexivity.
  - apply (gradient_breakpoints 0.396 0.6 Hm). reflexivity.
  - apply (gradient_breakpoints 0.6 0.6 Hm). discriminate.
Defined.

(** ** The 24 hourly snapshots *)

Lemma hourly_feature_ok (multiplier : Q) (road : Road) :
  hourly_feature multiplier road =
  Ok (mkFeature (segment road)
                (option_map (fun c => c * multiplier) (congestion_level road))
                (hourly_color
                   (option_map (fun c => c * multiplier) (congestion_level road)))).
Proof.
  unfold hourly_feature, hourly_color.
  destruct (option_map _ (congestion_level road)) as [c |]; [| reflexivity].
  unfold get_smooth_gradient_color.
  replace (Qeq_bool DEFAULT_MAX_CONGESTION 0) with false by reflexivity.
  destruct (gradient_channels _) as [[r g] b]. reflexivity.
Qed.

Lemma generate_hourly_snapshots_ok (roads : list Road) :
  generate_hourly_snapshots roads =
  Ok (map (fun hour =>
             (hour,
              map (fun road =>
                     mkFeature (segment road)
                       (option_map (fun c => c * get_time_multiplier hour)
                                   (congestion_level road))
                       (hourly_color
                          (option_map (fun c => c * get_time_multiplier hour)
                                      (congestion_level road))))
                  roads))
          (map Z.of_nat (seq 0 24))).
Proof.
  unfold generate_hourly_snapshots.
  apply mapM_total. intros hour _.
  rewrite (mapM_total _ _ roads (fun road _ => hourly_feature_ok _ road)).
  reflexivity.
Qed.

(** C1, counterexample: a base value 0.6 becomes 1.5 at hour 17 (multiplier
    2.5); the hourly field carries 1.5, above the ceiling 1.0 to which the
    specified clamp would bring it. *)
Lemma hourly_value_exceeds_ceiling :
  exists snapshots features v,
    generate_hourly_snapshots
      [mkRoad (mkSegment (mkPoint 26.1 44.4) "primary") (Some 0.6)] = Ok snapshots /\
    dict_get snapshots 17 = Some features /\
    map feature_congestion_level features = [Some v] /\
    v == 1.5 /\ ~ v <= 1.0 /\
    ~ v == spec_clamp (0.6 * get_time_multiplier 17) 0 1.0.
Proof.
  do 3 eexists. split; [vm_compute; reflexivity |].
  split; [vm_compute; reflexivity |].
  split; [vm_compute; reflexivity |].
  split; [reflexivity |]. split; intro H; vm_compute in H; [apply H; reflexivity | discriminate H].
Qed.

(** C1, as amended: for every hour h in 0..23 and every target t the hourly
    field is the plain product field[h][t] = base[t] * curve[h], with no
    clamp and no ceiling (an unknown base value stays unknown); the only
    cap is the one the colour mapper applies when it normalizes a value. *)
Theorem hourly_field_is_product (roads : list Road) (hour : Z) :
  (0 <= hour < 24)%Z ->
  exists snapshots features,
    generate_hourly_snapshots roads = Ok snapshots /\
    map fst snapshots = map Z.of_nat (seq 0 24) /\
    dict_get snapshots hour = Some features /\
    map feature_road features = map segment roads /\
    map feature_congestion_level features =
    map (fun road => option_map (fun c => c * get_time_multiplier hour)
                                (congestion_level road)) roads /\
    map color features = map hourly_color (map feature_congestion_level features).
Proof.
  intro Hrange.
  do 2 eexists. split; [apply generate_hourly_snapshots_ok |].
  split; [reflexivity |].
  split.
  - apply (dict_get_map (fun hour => map _ roads)).
    replace hour with (Z.of_nat (Z.to_nat hour)) by lia.
    apply in_map, in_seq. lia.
  - rewrite !map_map. simpl. repeat split; reflexivity.
Qed.

Lemma hourly_field_is_product_witness :
  exists snapshots features,
    generate_hourly_snapshots
      [mkRoad (mkSegment (mkPoint 26.1 44.4) "primary") (Some 0.2);
       mkRoad (mkSegment (mkPoint 26.0 44.5) "residential") None] = Ok snapshots /\
    dict_get snapshots 8 = Some features /\
    map feature_congestion_level features = [Some (0.2 * 2.0); None].
Proof.
  destruct (hourly_field_is_product
              [mkRoad (mkSegment (mkPoint 26.1 44.4) "primary") (Some 0.2);
               mkRoad (mkSegment (mkPoint 26.0 44.5) "residential") None]
              8 ltac:(lia))
    as (snapshots & features & H1 & _ & H3 & _ & H5 & _).
  exists snapshots, features. repeat split; assumption.
Defined.

(** ** The flow sampler *)

Lemma session_get_raises (session : Session) (la lo : Q) (w w' : world) (e : exc) :
  session_get session la lo w = (Raise e, w') -> is_RequestException e = true.
Proof.
  unfold session_get.
  destruct (session (requests_made w) la lo); intro H; inversion H; reflexivity.
Qed.

Lemma raise_for_status_raises (r : Response) (w w' : world) (e : exc) :
  raise_for_status r w = (Raise e, w') -> is_RequestException e = true.
Proof.
  unfold raise_for_status.
  destruct ((400 <=? status_code r) && (status_code r <? 600))%Z;
    intro H; inversion H; reflexivity.
Qed.

Lemma bind_raises {A B} (c : M A) (f : A -> M B) (w w' : world) (e : exc) :
  bind c f w = (Raise e, w') ->
  c w = (Raise e, w') \/ exists a w1, c w = (Ok a, w1) /\ f a w1 = (Raise e, w').
Proof.
  unfold bind. destruct (c w) as [[a | e1] w1]; intro H.
  - right. exists a, w1. split; [reflexivity | exact H].
  - left. inversion H. reflexivity.
Qed.

(** Whatever [retrieve_speeds] raises is a [RequestException]: the handler
    of [fetch_congestion] catches it. *)
Lemma retrieve_speeds_raises (session : Session) (la lo : Q) (w w' : world) (e : exc) :
  retrieve_speeds session la lo w = (Raise e, w') -> is_RequestException e = true.
Proof.
  unfold retrieve_speeds. intro H.
  apply bind_raises in H. destruct H as [H | (r & w1 & _ & H)].
  { exact (session_get_raises _ _ _ _ _ _ H). }
  apply bind_raises in H. destruct H as [H | (r2 & w2 & _ & H)].
  { destruct (status_code r =? 429)%Z.
    - apply bind_raises in H. destruct H as [H | (u & w2 & _ & H)].
      + discriminate H.
      + exact (session_get_raises _ _ _ _ _ _ H).
    - discriminate H. }
  apply bind_raises in H. destruct H as [H | (u & w3 & _ & H)].
  { exact (raise_for_status_raises _ _ _ _ H). }
  discriminate H.
Qed.

(** [fetch_congestion] returns a row in every case: the row computed from
    the speeds when they were retrieved, the invalid row when the lookup
    raised. *)
Lemma fetch_congestion_cases (session : Session) (la lo : Q) (w : world) :
  (exists speeds w',
      retrieve_speeds session la lo w = (Ok speeds, w') /\
      fetch_congestion session la lo w = (Ok (sample_of_speeds la lo speeds), w')) \/
  (exists e w',
      retrieve_speeds session la lo w = (Raise e, w') /\
      fetch_congestion session la lo w = (Ok (invalid_sample la lo), w')).
Proof.
  unfold fetch_congestion, try_except_RequestException, bind.
  destruct (retrieve_speeds session la lo w) as [[speeds | e] w'] eqn:E.
  - left. exists speeds, w'. split; reflexivity.
  - right. exists e, w'. rewrite (retrieve_speeds_raises _ _ _ _ _ _ E).
    split; reflexivity.
Qed.

Lemma sample_of_speeds_coordinate (la lo : Q) (speeds : option Q * option Q) :
  coordinate (sample_of_speeds la lo speeds) = (la, lo).
Proof.
  unfold sample_of_speeds.
  destruct speeds as [[cs |] [ffs |]]; try reflexivity.
  destruct (Qltb 0 ffs); reflexivity.
Qed.

Lemma sample_of_speeds_factor (la lo : Q) (speeds : option Q * option Q) (c : Q) :
  congestion_factor (sample_of_speeds la lo speeds) = Some c <->
  exists cs ffs,
    speeds = (Some cs, Some ffs) /\ 0 < ffs /\
    c = py_max 0 (py_min 1 (1 - cs / ffs)).
Proof.
  unfold sample_of_speeds. split.
  - destruct speeds as [[cs |] [ffs |]]; simpl; try discriminate.
    destruct (Qltb 0 ffs) eqn:E; simpl; [| discriminate].
    intro H. inversion H. exists cs, ffs. apply Qltb_lt in E. auto.
  - intros (cs & ffs & -> & Hpos & ->).
    apply Qltb_lt in Hpos. rewrite Hpos. reflexivity.
Qed.

(** C7: the row returned by [fetch_congestion] carries a congestion factor
    exactly when both speeds were retrieved and the free-flow speed is
    positive; the factor is then 1 - current_speed / free_flow_speed
    clamped to [0, 1], hence within [0, 1]; in every other case the row
    carries [None]. *)
Theorem fetch_congestion_factor_invariant (session : Session) (la lo : Q) (w : world) :
  exists sample w',
    fetch_congestion session la lo w = (Ok sample, w') /\
    coordinate sample = (la, lo) /\
    (congestion_factor sample <> None <->
     exists cs ffs,
       fst (retrieve_speeds session la lo w) = Ok (Some cs, Some ffs) /\ 0 < ffs) /\
    (forall c, congestion_factor sample = Some c ->
       0 <= c <= 1 /\
       exists cs ffs,
         fst (retrieve_speeds session la lo w) = Ok (Some cs, Some ffs) /\
         c == spec_clamp (1 - cs / ffs) 0 1).
Proof.
  destruct (fetch_congestion_cases session la lo w)
    as [(speeds & w' & Hr & Hf) | (e & w' & Hr & Hf)].
  - exists (sample_of_speeds la lo speeds), w'. rewrite Hr. simpl.
    split; [exact Hf |]. split; [apply sample_of_speeds_coordinate |]. split.
    + split.
      * intro Hc.
        destruct (congestion_factor (sample_of_speeds la lo speeds)) as [c |] eqn:E;
          [| contradiction].
        apply sample_of_speeds_factor in E. destruct E as (cs & ffs & -> & Hpos & _).
        exists cs, ffs. auto.
      * intros (cs & ffs & Heq & Hpos). inversion Heq. subst speeds.
        assert (E : congestion_factor (sample_of_speeds la lo (Some cs, Some ffs))
                    = Some (py_max 0 (py_min 1 (1 - cs / ffs)))).
        { apply sample_of_speeds_factor. exists cs, ffs. auto. }
        rewrite E. discriminate.
    + intros c Hc. apply sample_of_speeds_factor in Hc.
      destruct Hc as (cs & ffs & -> & Hpos & ->). split.
      * apply py_clamp_range.
      * exists cs, ffs. split; [reflexivity | apply py_clamp_spec].
  - exists (invalid_sample la lo), w'. rewrite Hr. simpl.
    split; [exact Hf |]. split; [reflexivity |]. split.
    + split; [intro H; contradiction H; reflexivity |].
      intros (cs & ffs & Heq & _). discriminate Heq.
    + intros c Hc. discriminate Hc.
Qed.

(** ** The scan of the grid *)

Lemma fetch_congestion_fetched_at (session : Session) (la lo : Q) (w : world) :
  exists sample w',
    fetch_congestion session la lo w = (Ok sample, w') /\
    coordinate sample = (la, lo) /\
    fetched_at session (la, lo) sample.
Proof.
  destruct (fetch_congestion_cases session la lo w)
    as [(speeds & w' & Hr & Hf) | (e & w' & Hr & Hf)].
  - exists (sample_of_speeds la lo speeds), w'.
    split; [exact Hf |]. split; [apply sample_of_speeds_coordinate |].
    exists w, w'. split; [exact Hf |].
    intros e w2 He. simpl in He. rewrite Hr in He. discriminate He.
  - exists (invalid_sample la lo), w'.
    split; [exact Hf |]. split; [reflexivity |].
    exists w, w'. split; [exact Hf |]. intros; reflexivity.
Qed.

Lemma scan_loop_completes (session : Session) (total : nat) (grid : list (Q * Q)) :
  forall (i : nat) (results : list FlowSample) (w : world),
  exists rows w',
    scan_loop session total i grid results w = (Ok (results ++ rows), w') /\
    map coordinate rows = grid /\
    Forall2 (fetched_at session) grid rows.
Proof.
  induction grid as [| [la lo] rest IH]; intros i results w.
  - exists [], w. rewrite app_nil_r. repeat split. constructor.
  - destruct (fetch_congestion_fetched_at session la lo w)
      as (sample & w1 & Hf & Hc & Hat).
    assert (Hsleep : exists w2,
               (if (i <? total)%nat then time_sleep 0.2 else ret tt) w1 = (Ok tt, w2)).
    { destruct (i <? total)%nat; eexists; reflexivity. }
    destruct Hsleep as (w2 & Hs).
    destruct (IH (S i) (results ++ [sample]) w2) as (rows & w' & Hl & Hm & Hall).
    exists (sample :: rows), w'. split; [| split].
    + simpl. unfold bind at 1. rewrite Hf. unfold bind at 1. rewrite Hs.
      rewrite Hl. rewrite <- app_assoc. reflexivity.
    + simpl. rewrite Hc, Hm. reflexivity.
    + constructor; assumption.
Qed.

Lemma valid_plus_invalid (rows : list FlowSample) :
  (List.length (filter is_valid rows)
   + List.length (filter (fun s => negb (is_valid s)) rows)
   = List.length rows)%nat.
Proof.
  induction rows as [| s rows IH]; simpl; [reflexivity |].
  destruct (is_valid s); simpl; lia.
Qed.


(** ** The grid generator *)

Lemma quotient_nonpos (a s : Q) :
  (a <= 0 /\ 0 < s) \/ (0 <= a /\ s < 0) -> a / s <= 0.
Proof.
  intros [[Ha Hs] | [Ha Hs]].
  - apply Qle_shift_div_r; [exact Hs | lra].
  - assert (E : a / s == (- a) / (- s)) by (field; lra).
    rewrite E. apply Qle_shift_div_r; lra.
Qed.

Lemma np_arange_ok (start stop step : Q) :
  ~ step == 0 -> exists l, np_arange start stop step = Ok l.
Proof.
  intro H. unfold np_arange. destruct (Qeq_bool step 0) eqn:E.
  - apply Qeq_bool_iff in E. contradiction.
  - eexists. reflexivity.
Qed.

Lemma np_arange_empty (start stop step : Q) :
  ~ step == 0 -> (stop - start) / step <= 0 -> np_arange start stop step = Ok [].
Proof.
  intros H Hq. unfold np_arange. destruct (Qeq_bool step 0) eqn:E.
  - apply Qeq_bool_iff in E. contradiction.
  - apply Qceiling_resp_le in Hq. change (Qceiling 0) with 0%Z in Hq.
    replace (Z.to_nat (Qceiling ((stop - start) / step))) with 0%nat by lia.
    reflexivity.
Qed.

Lemma np_arange_zero_step (start stop step : Q) :
  step == 0 -> np_arange start stop step = Raise ZeroDivisionError.
Proof.
  intro H. unfold np_arange. apply Qeq_bool_iff in H. rewrite H. reflexivity.
Qed.

Lemma flat_map_empty_rows {A B} (l : list A) :
  flat_map (fun _ : A => @nil B) l = [].
Proof.
  induction l; simpl; auto.
Qed.

(** C6, counterexample: the configured box with the negated spacing is
    accepted, and the grid is silently empty. *)
Lemma generate_grid_negative_spacing_not_rejected :
  - GRID_SPACING < 0 /\ generate_grid BBOX (- GRID_SPACING) = Ok [].
Proof.
  split; reflexivity.
Qed.

(** C6, as amended: the pipeline validates nothing.  For a negative
    spacing on a box whose latitude or longitude range is ordered, and for
    a positive spacing on a box one of whose ranges is empty,
    [generate_grid] returns the empty sequence without raising; the scan
    then returns no rows and issues no request (the world is unchanged). *)
Theorem degenerate_grid_is_silently_empty
        (session : Session) (bbox : BBox) (spacing : Q) (w : world) :
  (spacing < 0 /\
   (lat_min bbox <= lat_max bbox \/ lon_min bbox <= lon_max bbox)) \/
  (0 < spacing /\
   (lat_max bbox <= lat_min bbox \/ lon_max bbox <= lon_min bbox)) ->
  generate_grid bbox spacing = Ok [] /\
  run_scan session bbox spacing w = (Ok [], w).
Proof.
  intro H.
  assert (Hs : ~ spacing == 0) by (intro E; destruct H as [[H _] | [H _]]; lra).
  assert (Hq : (lat_max bbox - lat_min bbox) / spacing <= 0 \/
               (lon_max bbox - lon_min bbox) / spacing <= 0).
  { destruct H as [[H [Hb | Hb]] | [H [Hb | Hb]]];
      [left | right | left | right]; apply quotient_nonpos; lra. }
  assert (Hg : generate_grid bbox spacing = Ok []).
  { unfold generate_grid. destruct Hq as [Hq | Hq].
    - rewrite (np_arange_empty _ _ _ Hs Hq). simpl.
      destruct (np_arange_ok (lon_min bbox) (lon_max bbox) spacing Hs) as [l ->].
      reflexivity.
    - rewrite (np_arange_empty (lon_min bbox) _ _ Hs Hq).
      destruct (np_arange_ok (lat_min bbox) (lat_max bbox) spacing Hs) as [l ->].
      simpl. rewrite flat_map_empty_rows. reflexivity. }
  split; [exact Hg |].
  unfold run_scan, bind, lift. rewrite Hg. reflexivity.
Qed.

Lemma degenerate_grid_is_silently_empty_witness :
  generate_grid BBOX (- GRID_SPACING) = Ok [] /\
  run_scan (fun _ _ _ => TimedOut) BBOX (- GRID_SPACING) (mkWorld 0 [])
  = (Ok [], mkWorld 0 []).
Proof.
  apply (degenerate_grid_is_silently_empty (fun _ _ _ => TimedOut) BBOX
           (- GRID_SPACING) (mkWorld 0 [])).
  left. split; [reflexivity |]. left. simpl. discriminate.
Defined.

(** ** The nearest-neighbour query *)

Lemma In_firstn {A} (n : nat) (l : list A) (x : A) :
  In x (firstn n l) -> In x l.
Proof.
  intro H. rewrite <- (firstn_skipn n l). apply in_or_app. left. exact H.
Qed.

Lemma nth_error_combine {A B} (l : list A) (l' : list B) (n : nat) (a : A) (b : B) :
  nth_error (combine l l') n = Some (a, b) ->
  nth_error l n = Some a /\ nth_error l' n = Some b.
Proof.
  revert l' n. induction l as [| x l IH]; intros l' n H.
  - destruct n; discriminate H.
  - destruct l' as [| y l']; [destruct n; discriminate H |].
    destruct n as [| n]; simpl in *.
    + inversion H. split; reflexivity.
    + apply IH. exact H.
Qed.

Section InterpolationFacts.

Variable sqrtQ : Q -> Q.

Lemma insert_by_distance_perm (e : Q * nat) (l : list (Q * nat)) :
  Permutation (insert_by_distance e l) (e :: l).
Proof.
  induction l as [| h t IH]; simpl.
  - apply Permutation_refl.
  - destruct (Qle_bool (fst e) (fst h)).
    + apply Permutation_refl.
    + apply Permutation_trans with (h :: e :: t).
      * apply perm_skip. exact IH.
      * apply perm_swap.
Qed.

Lemma sort_by_distance_perm (l : list (Q * nat)) :
  Permutation (sort_by_distance l) l.
Proof.
  induction l as [| e l IH]; simpl.
  - apply perm_nil.
  - apply Permutation_trans with (e :: sort_by_distance l).
    + apply insert_by_distance_perm.
    + apply perm_skip. exact IH.
Qed.

(** The head of the sorted candidates is a candidate of least distance. *)
Lemma sort_by_distance_head (l : list (Q * nat)) (h : Q * nat) (t : list (Q * nat)) :
  sort_by_distance l = h :: t ->
  In h l /\ forall e, In e l -> fst h <= fst e.
Proof.
  revert h t. induction l as [| a l IH]; intros h t H.
  - discriminate H.
  - simpl in H. destruct (sort_by_distance l) as [| h' t'] eqn:E.
    + assert (l = []).
      { apply Permutation_nil. rewrite <- E. apply sort_by_distance_perm. }
      subst l. simpl in H. inversion H. subst. split; [left; reflexivity |].
      intros e [<- | []]. lra.
    + destruct (IH h' t' eq_refl) as [Hin Hmin].
      simpl in H. destruct (Qle_bool (fst a) (fst h')) eqn:L; inversion H; subst.
      * apply Qle_bool_iff in L. split; [left; reflexivity |].
        intros e [<- | He]; [lra |]. specialize (Hmin e He). lra.
      * assert (fst h < fst a).
        { apply Qnot_le_lt. intro C. apply Qle_bool_iff in C. congruence. }
        split; [right; exact Hin |].
        intros e [<- | He]; [lra | exact (Hmin e He)].
Qed.

Lemma insert_by_distance_sorted (e : Q * nat) (l : list (Q * nat)) :
  StronglySorted (fun a b => fst a <= fst b) l ->
  StronglySorted (fun a b => fst a <= fst b) (insert_by_distance e l).
Proof.
  induction l as [| h t IH]; intro Hs; simpl.
  - constructor; constructor.
  - apply StronglySorted_inv in Hs. destruct Hs as [Ht Hh].
    destruct (Qle_bool (fst e) (fst h)) eqn:L.
    + apply Qle_bool_iff in L. constructor.
      * constructor; assumption.
      * constructor; [exact L |].
        apply Forall_forall. intros y Hy.
        pose proof (proj1 (Forall_forall _ _) Hh y Hy) as Hhy. simpl in Hhy. lra.
    + assert (fst h < fst e).
      { apply Qnot_le_lt. intro C. apply Qle_bool_iff in C. congruence. }
      constructor; [exact (IH Ht) |].
      apply Forall_forall. intros y Hy.
      apply (Permutation_in _ (insert_by_distance_perm e t)) in Hy.
      destruct Hy as [<- | Hy]; [lra |].
      exact (proj1 (Forall_forall _ _) Hh y Hy).
Qed.

Lemma sort_by_distance_sorted (l : list (Q * nat)) :
  StronglySorted (fun a b => fst a <= fst b) (sort_by_distance l).
Proof.
  induction l as [| e l IH]; simpl.
  - constructor.
  - apply insert_by_distance_sorted. exact IH.
Qed.

Lemma sorted_prefix_least (l1 l2 : list (Q * nat)) :
  StronglySorted (fun a b => fst a <= fst b) (l1 ++ l2) ->
  forall e e', In e l1 -> In e' l2 -> fst e <= fst e'.
Proof.
  induction l1 as [| a l1 IH]; intros Hs e e' He He'.
  - destruct He.
  - simpl in Hs. apply StronglySorted_inv in Hs. destruct Hs as [Ht Ha].
    destruct He as [<- | He].
    + apply (proj1 (Forall_forall _ _) Ha). apply in_or_app. right. exact He'.
    + exact (IH Ht e e' He He').
Qed.

(** The neighbours found are candidates of least distance: the candidates
    left out are at least as far as each neighbour. *)
Lemma nearest_are_least (data : list (Q * Q)) (x : Q * Q) (k : nat) :
  exists far,
    Permutation (nearest sqrtQ data x k ++ far)
                (combine (map (planar_distance sqrtQ x) data)
                         (seq 0 (List.length data))) /\
    forall e e', In e (nearest sqrtQ data x k) -> In e' far -> fst e <= fst e'.
Proof.
  unfold nearest.
  set (cands := combine (map (planar_distance sqrtQ x) data) (seq 0 (List.length data))).
  exists (skipn k (sort_by_distance cands)). split.
  - rewrite firstn_skipn. apply sort_by_distance_perm.
  - apply sorted_prefix_least. rewrite firstn_skipn. apply sort_by_distance_sorted.
Qed.

Lemma candidates_length (data : list (Q * Q)) (x : Q * Q) :
  List.length (sort_by_distance
                 (combine (map (planar_distance sqrtQ x) data)
                          (seq 0 (List.length data))))
  = List.length data.
Proof.
  rewrite (Permutation_length (sort_by_distance_perm _)).
  rewrite length_combine, length_map, length_seq. apply Nat.min_id.
Qed.

Lemma nearest_length (data : list (Q * Q)) (x : Q * Q) (k : nat) :
  List.length (nearest sqrtQ data x k) = Nat.min k (List.length data).
Proof.
  unfold nearest. rewrite length_firstn, candidates_length. reflexivity.
Qed.

(** A neighbour found is a data point: its index is in range and its
    distance is the planar distance to that point. *)
Lemma nearest_in_range (data : list (Q * Q)) (x : Q * Q) (k : nat) (e : Q * nat) :
  In e (nearest sqrtQ data x k) ->
  (snd e < List.length data)%nat /\
  exists p, nth_error data (snd e) = Some p /\ fst e = planar_distance sqrtQ x p.
Proof.
  unfold nearest. intro H. apply In_firstn in H.
  apply (Permutation_in _ (sort_by_distance_perm _)) in H.
  destruct e as [d i]. simpl.
  assert (Hi : (i < List.length data)%nat).
  { apply in_combine_r in H. apply in_seq in H. lia. }
  split; [exact Hi |].
  apply In_nth_error in H. destruct H as [n Hn].
  apply nth_error_combine in Hn. destruct Hn as [Hd Hs].
  assert (n = i).
  { assert (Hlt : (n < List.length (seq 0 (List.length data)))%nat)
      by (apply nth_error_Some; congruence).
    rewrite length_seq in Hlt.
    rewrite (nth_error_nth' _ 0%nat) in Hs by (rewrite length_seq; exact Hlt).
    rewrite seq_nth in Hs by exact Hlt. inversion Hs. reflexivity. }
  subst n. rewrite nth_error_map in Hd.
  destruct (nth_error data i) as [p |] eqn:Ep; [| discriminate Hd].
  exists p. split; [reflexivity |]. simpl in Hd. inversion Hd. reflexivity.
Qed.

(** *** Looking up the neighbours' congestion factors *)

Lemma valid_values_length (traffic_df : list FlowSample) :
  List.length (valid_values traffic_df) = List.length (traffic_valid traffic_df).
Proof.
  unfold valid_values, traffic_valid.
  induction traffic_df as [| s df IH]; simpl; [reflexivity |].
  destruct (is_valid s) eqn:V; [| exact IH].
  unfold is_valid in V. simpl.
  destruct (congestion_factor s) as [c |]; [| discriminate V].
  simpl. rewrite IH. reflexivity.
Qed.

Lemma valid_values_in_df (traffic_df : list FlowSample) (v : Q) :
  In v (valid_values traffic_df) ->
  exists s, In s traffic_df /\ congestion_factor s = Some v.
Proof.
  unfold valid_values. intro H. apply in_flat_map in H.
  destruct H as (s & Hs & Hv). apply filter_In in Hs.
  exists s. split; [apply Hs |].
  destruct (congestion_factor s) as [c |]; [| destruct Hv].
  destruct Hv as [<- | []]. reflexivity.
Qed.

Lemma np_take_in_range (a : list Q) (idx : list nat) :
  (forall j, In j idx -> (j < List.length a)%nat) ->
  np_take a idx = Ok (map (fun j => nth j a 0) idx).
Proof.
  intro H. unfold np_take. apply mapM_total. intros j Hj.
  rewrite (nth_error_nth' a 0 (H j Hj)). reflexivity.
Qed.

Lemma np_take_out_of_range (a : list Q) (idx rest : list nat) :
  (forall j, In j idx -> (j < List.length a)%nat) ->
  np_take a (idx ++ List.length a :: rest) = Raise IndexError.
Proof.
  unfold np_take. induction idx as [| j idx IH]; intro H.
  - simpl. rewrite (proj2 (nth_error_None a (List.length a)) (Nat.le_refl _)).
    reflexivity.
  - simpl. rewrite (nth_error_nth' a 0 (H j (or_introl eq_refl))). simpl.
    rewrite IH by (intros i Hi; apply H; right; exact Hi). reflexivity.
Qed.

(** *** One row of the interpolation *)

Lemma idw_row_found (data : list (Q * Q)) (values : list Q) (x : Q * Q) (k : nat) :
  (k <= List.length data)%nat ->
  List.length values = List.length data ->
  idw_row values (query_row sqrtQ data x k) =
  Ok (idw_value (map (fun e => (fst e, nth (snd e) values 0))
                     (nearest sqrtQ data x k))).
Proof.
  intros Hk Hlen. unfold idw_row, query_row.
  rewrite nearest_length. replace (k - Nat.min k (List.length data))%nat with 0%nat by lia.
  simpl repeat. rewrite !app_nil_r. cbn [fst snd].
  rewrite np_take_in_range.
  - cbn [rbind]. unfold idw_value, normalized_weights, raw_weights.
    rewrite !map_map. reflexivity.
  - intros j Hj. apply in_map_iff in Hj. destruct Hj as (e & <- & He).
    rewrite Hlen. apply (nearest_in_range data x k e He).
Qed.

Lemma idw_row_missing (data : list (Q * Q)) (values : list Q) (x : Q * Q) (k : nat) :
  (List.length data < k)%nat ->
  List.length values = List.length data ->
  idw_row values (query_row sqrtQ data x k) = Raise IndexError.
Proof.
  intros Hk Hlen. unfold idw_row, query_row.
  rewrite nearest_length.
  replace (k - Nat.min k (List.length data))%nat
    with (S (k - List.length data - 1))%nat by lia.
  cbn [repeat fst snd]. rewrite <- Hlen.
  rewrite np_take_out_of_range; [reflexivity |].
  intros j Hj. apply in_map_iff in Hj. destruct Hj as (e & <- & He).
  rewrite Hlen. apply (nearest_in_range data x k e He).
Qed.

(** *** The whole interpolation *)

Lemma mapM_map_total {A B C} (f : B -> result C) (h : A -> B) (g : A -> C)
      (xs : list A) :
  (forall x, In x xs -> f (h x) = Ok (g x)) ->
  mapM f (map h xs) = Ok (map g xs).
Proof.
  induction xs as [| x xs IH]; intro H; simpl.
  - reflexivity.
  - rewrite (H x (or_introl eq_refl)). simpl.
    rewrite IH by (intros y Hy; apply H; right; exact Hy). reflexivity.
Qed.

Lemma combine_levels (roads : list RoadSegment) (g : RoadSegment -> Q) :
  map (fun rc => mkRoad (fst rc) (Some (snd rc))) (combine roads (map g roads))
  = map (fun r => mkRoad r (Some (g r))) roads.
Proof.
  induction roads as [| r roads IH]; simpl; [reflexivity |].
  rewrite IH. reflexivity.
Qed.

Lemma cKDTree_query_ok (data xs : list (Q * Q)) (k : nat) :
  (1 <= k)%nat -> xs <> [] ->
  cKDTree_query sqrtQ data xs k = Ok (map (fun x => query_row sqrtQ data x k) xs).
Proof.
  intros Hk Hxs. unfold cKDTree_query.
  destruct xs as [| x xs]; [contradiction |].
  destruct (Nat.eqb_spec k 0) as [-> | _]; [lia | reflexivity].
Qed.

(** With at least [k >= 1] valid samples and at least one road, the
    interpolation returns one row per road, whose level is the weighted
    average over the neighbours of the road. *)
Lemma interpolate_traffic_idw_ok
      (roads : list RoadSegment) (traffic_df : list FlowSample) (k : nat) :
  (1 <= k <= List.length (traffic_valid traffic_df))%nat ->
  roads <> [] ->
  interpolate_traffic_idw sqrtQ roads traffic_df k =
  Ok (map (fun r => mkRoad r (Some (idw_value (neighbours sqrtQ traffic_df r k))))
          roads).
Proof.
  intros Hk Hroads. unfold interpolate_traffic_idw.
  rewrite cKDTree_query_ok;
    [| lia | intro E; apply map_eq_nil in E; contradiction].
  cbn [rbind]. rewrite map_map.
  rewrite (mapM_map_total _ _
             (fun r => idw_value (neighbours sqrtQ traffic_df r k))).
  - cbn [rbind]. rewrite combine_levels. reflexivity.
  - intros r _. unfold neighbours. apply idw_row_found.
    + rewrite length_map. lia.
    + rewrite length_map. apply valid_values_length.
Qed.

Lemma interpolate_traffic_idw_too_few
      (roads : list RoadSegment) (traffic_df : list FlowSample) (k : nat) :
  (List.length (traffic_valid traffic_df) < k)%nat ->
  interpolate_traffic_idw sqrtQ roads traffic_df k =
  Raise (match roads with [] => ValueError | _ :: _ => IndexError end).
Proof.
  intro Hk. unfold interpolate_traffic_idw, cKDTree_query.
  destruct roads as [| r roads]; [reflexivity |].
  cbn [map]. destruct (Nat.eqb_spec k 0) as [-> | _]; [lia |].
  cbn [rbind map mapM].
  rewrite idw_row_missing.
  - reflexivity.
  - rewrite length_map. exact Hk.
  - rewrite length_map. apply valid_values_length.
Qed.

End InterpolationFacts.

(** ** Algebra of the inverse-distance weights *)

Lemma raw_weight_pos (d : Q) : 0 < raw_weight d.
Proof.
  unfold raw_weight. destruct (Qltb d EPS) eqn:E.
  - reflexivity.
  - apply Qltb_ge in E. assert (0 < EPS) by reflexivity.
    apply Qlt_shift_div_l; lra.
Qed.

Lemma raw_weight_comp (d d' : Q) : d == d' -> raw_weight d == raw_weight d'.
Proof.
  intro H. unfold raw_weight.
  rewrite (Qltb_comp d d' EPS EPS H (Qeq_refl _)).
  destruct (Qltb d' EPS); [reflexivity | rewrite H; reflexivity].
Qed.

Lemma raw_weight_coincident (d : Q) : d == 0 -> raw_weight d == 10000000000.
Proof.
  intro H. rewrite (raw_weight_comp d 0 H). reflexivity.
Qed.

Lemma raw_weight_far (d : Q) : EPS <= d -> raw_weight d == 1 / d.
Proof.
  intro H. unfold raw_weight. apply Qltb_ge in H. rewrite H. reflexivity.
Qed.

Lemma Qmul_vec_maps {A} (f g : A -> Q) (l : list A) :
  Qmul_vec (map f l) (map g l) = map (fun e => f e * g e) l.
Proof.
  induction l as [| a l IH]; simpl; [reflexivity | rewrite IH; reflexivity].
Qed.

Lemma Qsum_div (W : Q) (ws : list Q) :
  Qsum (map (fun w => w / W) ws) == Qsum ws / W.
Proof.
  induction ws as [| w ws IH]; simpl.
  - unfold Qdiv. ring.
  - rewrite IH. unfold Qdiv. ring.
Qed.

Lemma idw_value_quotient (nb : list (Q * Q)) :
  idw_value nb == weighted_sum nb / Qsum (raw_weights nb).
Proof.
  unfold idw_value, normalized_weights, weighted_sum.
  set (W := Qsum (raw_weights nb)). unfold raw_weights.
  rewrite map_map, Qmul_vec_maps. clearbody W.
  induction nb as [| e nb IH]; simpl.
  - unfold Qdiv. ring.
  - rewrite IH. unfold Qdiv. ring.
Qed.

Lemma raw_weights_sum_nonneg (nb : list (Q * Q)) : 0 <= Qsum (raw_weights nb).
Proof.
  induction nb as [| e nb IH]; simpl; [lra |].
  pose proof (raw_weight_pos (fst e)). lra.
Qed.

Lemma raw_weights_sum_pos (nb : list (Q * Q)) :
  nb <> [] -> 0 < Qsum (raw_weights nb).
Proof.
  destruct nb as [| e nb]; [contradiction |]. intros _. simpl.
  pose proof (raw_weight_pos (fst e)).
  pose proof (raw_weights_sum_nonneg nb). lra.
Qed.

(** The normalized weights sum to 1. *)
Lemma normalized_weights_sum (nb : list (Q * Q)) :
  nb <> [] -> Qsum (normalized_weights nb) == 1.
Proof.
  intro H. unfold normalized_weights. rewrite Qsum_div.
  pose proof (raw_weights_sum_pos nb H). field. lra.
Qed.

Lemma weighted_sum_bounds (nb : list (Q * Q)) (lo hi : Q) :
  (forall e, In e nb -> lo <= snd e <= hi) ->
  lo * Qsum (raw_weights nb) <= weighted_sum nb <= hi * Qsum (raw_weights nb).
Proof.
  unfold weighted_sum. induction nb as [| e nb IH]; intro H; simpl.
  - lra.
  - destruct IH as [IHlo IHhi]; [intros x Hx; apply H; right; exact Hx |].
    destruct (H e (or_introl eq_refl)) as [Hlo Hhi].
    pose proof (raw_weight_pos (fst e)) as Hw.
    assert (lo * raw_weight (fst e) <= snd e * raw_weight (fst e))
      by (apply Qmult_le_compat_r; lra).
    assert (snd e * raw_weight (fst e) <= hi * raw_weight (fst e))
      by (apply Qmult_le_compat_r; lra).
    lra.
Qed.

(** The weighted average is a convex combination of the values. *)
Lemma idw_value_between (nb : list (Q * Q)) (lo hi : Q) :
  nb <> [] ->
  (forall e, In e nb -> lo <= snd e <= hi) ->
  lo <= idw_value nb <= hi.
Proof.
  intros Hne H. rewrite idw_value_quotient.
  pose proof (raw_weights_sum_pos nb Hne) as HW.
  destruct (weighted_sum_bounds nb lo hi H) as [Hlo Hhi]. split.
  - apply Qle_shift_div_l; assumption.
  - apply Qle_shift_div_r; assumption.
Qed.

Lemma equal_distances_sums (nb : list (Q * Q)) (d : Q) :
  (forall e, In e nb -> fst e == d) ->
  Qsum (raw_weights nb) == inject_Z (Z.of_nat (List.length nb)) * raw_weight d /\
  weighted_sum nb == Qsum (map snd nb) * raw_weight d.
Proof.
  unfold weighted_sum. induction nb as [| e nb IH]; intro H.
  - simpl. split; ring.
  - destruct IH as [IH1 IH2]; [intros x Hx; apply H; right; exact Hx |].
    pose proof (raw_weight_comp _ _ (H e (or_introl eq_refl))) as He.
    cbn [List.length map raw_weights Qsum fold_right].
    fold (Qsum (map (fun e0 => raw_weight (fst e0)) nb)).
    fold (raw_weights nb).
    fold (Qsum (map (fun e0 => snd e0 * raw_weight (fst e0)) nb)).
    fold (Qsum (map snd nb)).
    rewrite Nat2Z.inj_succ. unfold Z.succ. rewrite inject_Z_plus.
    rewrite IH1, IH2, He. split; ring.
Qed.

(** Neighbours at equal distance: the weighted average is the arithmetic
    mean. *)
Lemma idw_value_equal_distances (nb : list (Q * Q)) (d : Q) :
  nb <> [] ->
  (forall e, In e nb -> fst e == d) ->
  idw_value nb == Qsum (map snd nb) / inject_Z (Z.of_nat (List.length nb)).
Proof.
  intros Hne H. rewrite idw_value_quotient.
  destruct (equal_distances_sums nb d H) as [H1 H2]. rewrite H1, H2.
  pose proof (raw_weight_pos d) as Hw.
  assert (Hn : 0 < inject_Z (Z.of_nat (List.length nb))).
  { destruct nb as [| e nb]; [contradiction |].
    change 0 with (inject_Z 0). rewrite <- Zlt_Qlt. simpl List.length. lia. }
  field. split; lra.
Qed.

(** A coincident first neighbour carries the raw weight 1e10. *)
Lemma idw_value_coincident (d0 v : Q) (rest : list (Q * Q)) :
  d0 == 0 ->
  idw_value ((d0, v) :: rest) * (10000000000 + Qsum (raw_weights rest))
  == 10000000000 * v + weighted_sum rest.
Proof.
  intro H. rewrite idw_value_quotient.
  pose proof (raw_weights_sum_nonneg rest) as Hr.
  unfold weighted_sum. cbn [map raw_weights Qsum fold_right fst snd].
  fold (Qsum (map (fun e => raw_weight (fst e)) rest)). fold (raw_weights rest).
  fold (Qsum (map (fun e => snd e * raw_weight (fst e)) rest)).
  rewrite (raw_weight_coincident d0 H). field. lra.
Qed.

(** ** The interpolated field *)

Lemma valid_values_nth_error (l : list FlowSample) :
  (forall s, In s l -> is_valid s = true) ->
  forall (j : nat) (s : FlowSample) (v : Q),
    nth_error l j = Some s -> congestion_factor s = Some v ->
    nth_error (flat_map (fun s => match congestion_factor s with
                                  | Some c => [c]
                                  | None => []
                                  end) l) j = Some v.
Proof.
  induction l as [| x l IH]; intros Hall j s v Hj Hv.
  - destruct j; discriminate Hj.
  - pose proof (Hall x (or_introl eq_refl)) as Hx. unfold is_valid in Hx.
    simpl. destruct (congestion_factor x) as [c |] eqn:Ex; [| discriminate Hx].
    destruct j as [| j]; simpl in *.
    + inversion Hj. subst x. congruence.
    + apply (IH (fun y Hy => Hall y (or_intror Hy)) j s v Hj Hv).
Qed.

Lemma valid_values_nth (traffic_df : list FlowSample) (j : nat) (s : FlowSample) (v : Q) :
  nth_error (traffic_valid traffic_df) j = Some s ->
  congestion_factor s = Some v ->
  nth j (valid_values traffic_df) 0 = v.
Proof.
  intros Hj Hv. apply nth_error_nth. unfold valid_values.
  apply (valid_values_nth_error (traffic_valid traffic_df)) with (s := s);
    [| exact Hj | exact Hv].
  intros x Hx. apply filter_In in Hx. apply Hx.
Qed.

Section InterpolationClaims.

Variable sqrtQ : Q -> Q.

(** Every neighbour of a road is a valid sample, with its planar distance
    to the road midpoint and its congestion factor. *)
Lemma neighbours_are_valid_samples
      (traffic_df : list FlowSample) (r : RoadSegment) (k : nat) (e : Q * Q) :
  In e (neighbours sqrtQ traffic_df r k) ->
  exists s,
    In s traffic_df /\ congestion_factor s = Some (snd e) /\
    fst e = planar_distance sqrtQ (py (centroid r), px (centroid r)) (lat s, lon s).
Proof.
  unfold neighbours. intro H. apply in_map_iff in H.
  destruct H as ([d i] & <- & Hin).
  destruct (nearest_in_range sqrtQ _ _ _ _ Hin) as (Hi & p & Hp & Hd).
  simpl in *. rewrite nth_error_map in Hp.
  destruct (nth_error (traffic_valid traffic_df) i) as [s |] eqn:Es;
    [| discriminate Hp].
  simpl in Hp. inversion Hp. subst p.
  assert (Hs : In s (traffic_valid traffic_df)) by (eapply nth_error_In; exact Es).
  apply filter_In in Hs. destruct Hs as [Hs Hv].
  unfold is_valid in Hv. destruct (congestion_factor s) as [v |] eqn:Ev;
    [| discriminate Hv].
  exists s. split; [exact Hs |]. split; [| exact Hd].
  rewrite Ev. f_equal. symmetry. exact (valid_values_nth _ _ _ _ Es Ev).
Qed.

Lemma neighbours_length (traffic_df : list FlowSample) (r : RoadSegment) (k : nat) :
  (k <= List.length (traffic_valid traffic_df))%nat ->
  List.length (neighbours sqrtQ traffic_df r k) = k.
Proof.
  intro H. unfold neighbours. rewrite length_map, nearest_length, length_map. lia.
Qed.

Lemma interpolated_rows (roads : list RoadSegment) (f : RoadSegment -> Q) (road : Road) :
  In road (map (fun r => mkRoad r (Some (f r))) roads) ->
  congestion_level road = Some (f (segment road)).
Proof.
  intro H. apply in_map_iff in H. destruct H as (r & <- & _). reflexivity.
Qed.



(** C4, as amended: when fewer than k valid samples exist (zero included)
    the interpolation does not degrade, it raises: with at least one target
    the lookup of the tree's missing-neighbour index raises IndexError, and
    no field is produced. *)
Theorem idw_raises_below_k
        (roads : list RoadSegment) (traffic_df : list FlowSample) (k : nat) :
  (List.length (traffic_valid traffic_df) < k)%nat ->
  (exists e, interpolate_traffic_idw sqrtQ roads traffic_df k = Raise e) /\
  (roads <> [] ->
   interpolate_traffic_idw sqrtQ roads traffic_df k = Raise IndexError).
Proof.
  intro Hk. rewrite (interpolate_traffic_idw_too_few sqrtQ roads traffic_df k Hk).
  split; [eexists; reflexivity |].
  destruct roads; [contradiction | reflexivity].
Qed.

End InterpolationClaims.

(** ** A target on a sample *)

Lemma nth_error_combine_intro {A B} (l : list A) (l' : list B) (n : nat) (a : A) (b : B) :
  nth_error l n = Some a -> nth_error l' n = Some b ->
  nth_error (combine l l') n = Some (a, b).
Proof.
  revert l' n. induction l as [| x l IH]; intros l' n Ha Hb.
  - destruct n; discriminate Ha.
  - destruct l' as [| y l']; [destruct n; discriminate Hb |].
    destruct n as [| n]; simpl in *.
    + inversion Ha. inversion Hb. reflexivity.
    + apply IH; assumption.
Qed.

Section CoincidentTarget.

Variable sqrtQ : Q -> Q.
Hypothesis sqrt_zero : forall q, q == 0 -> sqrtQ q == 0.

Lemma candidate_of_data (data : list (Q * Q)) (x p : Q * Q) (j : nat) :
  nth_error data j = Some p ->
  In (planar_distance sqrtQ x p, j)
     (combine (map (planar_distance sqrtQ x) data) (seq 0 (List.length data))).
Proof.
  intro H. apply nth_error_In with (n := j). apply nth_error_combine_intro.
  - rewrite nth_error_map, H. reflexivity.
  - assert (Hj : (j < List.length data)%nat) by (apply nth_error_Some; congruence).
    rewrite (nth_error_nth' _ 0%nat) by (rewrite length_seq; exact Hj).
    rewrite seq_nth by exact Hj. reflexivity.
Qed.

Lemma candidate_is_data (data : list (Q * Q)) (x : Q * Q) (e : Q * nat) :
  In e (combine (map (planar_distance sqrtQ x) data) (seq 0 (List.length data))) ->
  exists p, nth_error data (snd e) = Some p /\ fst e = planar_distance sqrtQ x p.
Proof.
  intro H. apply (nearest_in_range sqrtQ data x (List.length data)).
  unfold nearest. rewrite firstn_all2 by (rewrite candidates_length; lia).
  apply (Permutation_in _ (Permutation_sym (sort_by_distance_perm _))). exact H.
Qed.

(** When the data point [j] is at distance zero of [x] and every other data
    point is strictly farther, the first neighbour found is [j]. *)
Lemma nearest_head_coincident (data : list (Q * Q)) (x p : Q * Q) (j k : nat) :
  (1 <= k)%nat ->
  nth_error data j = Some p ->
  planar_distance sqrtQ x p == 0 ->
  (forall i q, nth_error data i = Some q -> i <> j -> 0 < planar_distance sqrtQ x q) ->
  exists d0 t, nearest sqrtQ data x k = (d0, j) :: t /\ d0 == 0.
Proof.
  intros Hk Hj Hzero Hfar. unfold nearest.
  set (cands := combine (map (planar_distance sqrtQ x) data) (seq 0 (List.length data))).
  destruct (sort_by_distance cands) as [| [dh ih] t] eqn:E.
  { pose proof (candidates_length sqrtQ data x) as L. fold cands in L.
    rewrite E in L. simpl in L.
    assert (j < List.length data)%nat by (apply nth_error_Some; congruence). lia. }
  destruct (sort_by_distance_head cands _ _ E) as [Hin Hmin].
  destruct (candidate_is_data data x _ Hin) as (q & Hq & Hd). simpl in Hq, Hd.
  pose proof (Hmin _ (candidate_of_data data x p j Hj)) as Hle. simpl in Hle.
  destruct (Nat.eq_dec ih j) as [-> | Hne].
  - exists dh, (firstn (k - 1) t). split.
    + destruct k as [| k]; [lia |]. simpl. rewrite Nat.sub_0_r. reflexivity.
    + rewrite Hj in Hq. inversion Hq. subst q. rewrite Hd. exact Hzero.
  - pose proof (Hfar ih q Hq Hne) as Hpos. rewrite <- Hd in Hpos. lra.
Qed.


End CoincidentTarget.

(** ** Concrete runs *)

Lemma isqrtQ_zero (q : Q) : q == 0 -> isqrtQ q == 0.
Proof.
  intro H. unfold isqrtQ. rewrite (Qred_complete q 0 H). reflexivity.
Qed.

Lemma example_has_three_valid_samples :
  List.length (traffic_valid example_traffic) = 3%nat.
Proof. reflexivity. Qed.

(** C4, counterexample: with two valid samples and k = 3 the interpolation
    raises IndexError instead of using the two; with no valid sample it
    raises as well instead of returning unknown levels. *)
Lemma idw_below_k_raises_example :
  List.length (traffic_valid (firstn 3 example_traffic)) = 2%nat /\
  interpolate_traffic_idw isqrtQ example_roads (firstn 3 example_traffic) 3
  = Raise IndexError /\
  traffic_valid [invalid_sample 45.0 26.0] = [] /\
  interpolate_traffic_idw isqrtQ example_roads [invalid_sample 45.0 26.0] 3
  = Raise IndexError.
Proof.
  repeat split; reflexivity.
Qed.

Lemma idw_raises_below_k_witness :
  interpolate_traffic_idw isqrtQ example_roads (firstn 3 example_traffic) 3
  = Raise IndexError.
Proof.
  apply (idw_raises_below_k isqrtQ example_roads (firstn 3 example_traffic) 3).
  - simpl. lia.
  - discriminate.
Defined.





(* ===================================================================== *)
(** * Part III.  Further properties of the three scripts and their callers *)
(* ===================================================================== *)

(** ** More on the interpolation *)

Lemma traffic_valid_idempotent (traffic_df : list FlowSample) :
  traffic_valid (traffic_valid traffic_df) = traffic_valid traffic_df.
Proof.
  unfold traffic_valid. induction traffic_df as [| s df IH]; simpl; [reflexivity |].
  destruct (is_valid s) eqn:V; simpl; [rewrite V, IH; reflexivity | exact IH].
Qed.

Section InterpolationMore.

Variable sqrtQ : Q -> Q.

(** X1: the interpolation reads the valid samples only: two scans with the
    same valid rows (in the same order) give the same result, whatever
    invalid rows they contain and wherever those are. *)
Theorem interpolation_ignores_invalid_rows
        (roads : list RoadSegment) (df1 df2 : list FlowSample) (k : nat) :
  traffic_valid df1 = traffic_valid df2 ->
  interpolate_traffic_idw sqrtQ roads df1 k = interpolate_traffic_idw sqrtQ roads df2 k.
Proof.
  intro H. unfold interpolate_traffic_idw, valid_values. rewrite H. reflexivity.
Qed.


(** X3: the level of a road depends on its midpoint only: two roads with
    the same centroid get the same level, whatever their road class. *)
Theorem level_depends_on_centroid_only
        (roads : list RoadSegment) (traffic_df : list FlowSample) (k : nat)
        (out : list Road) (road1 road2 : Road) :
  interpolate_traffic_idw sqrtQ roads traffic_df k = Ok out ->
  In road1 out -> In road2 out ->
  centroid (segment road1) = centroid (segment road2) ->
  congestion_level road1 = congestion_level road2.
Proof.
  intros Hout H1 H2 Hc.
  destruct (Nat.le_gt_cases k (List.length (traffic_valid traffic_df))) as [Hle | Hgt].
  - destruct roads as [| r0 roads0] eqn:Er; [discriminate Hout |].
    destruct (Nat.eq_dec k 0) as [-> | Hk0]; [discriminate Hout |].
    rewrite <- Er in *.
    rewrite interpolate_traffic_idw_ok in Hout;
      [| lia | rewrite Er; discriminate].
    inversion Hout. subst out.
    apply in_map_iff in H1. destruct H1 as (r1 & <- & _).
    apply in_map_iff in H2. destruct H2 as (r2 & <- & _).
    simpl in *. unfold neighbours. rewrite Hc. reflexivity.
  - rewrite (interpolate_traffic_idw_too_few sqrtQ roads traffic_df k Hgt) in Hout.
    discriminate Hout.
Qed.

(** X4: with k = 1 the interpolation is nearest-neighbour lookup: the level
    of a road is the congestion factor of a valid sample that no other
    valid sample is nearer to the road midpoint than. *)
Theorem k1_is_nearest_neighbour
        (roads : list RoadSegment) (traffic_df : list FlowSample) :
  traffic_valid traffic_df <> [] ->
  roads <> [] ->
  exists out,
    interpolate_traffic_idw sqrtQ roads traffic_df 1 = Ok out /\
    map segment out = roads /\
    forall road, In road out ->
      let x := (py (centroid (segment road)), px (centroid (segment road))) in
      exists s level,
        In s traffic_df /\ congestion_factor s = Some level /\
        (exists c, congestion_level road = Some c /\ c == level) /\
        forall s', In s' traffic_df -> congestion_factor s' <> None ->
          planar_distance sqrtQ x (lat s, lon s)
          <= planar_distance sqrtQ x (lat s', lon s').
Proof.
  intros Hvalid Hroads.
  assert (Hk : (1 <= 1 <= List.length (traffic_valid traffic_df))%nat).
  { destruct (traffic_valid traffic_df); [contradiction | simpl; lia]. }
  eexists.
  split; [apply (interpolate_traffic_idw_ok sqrtQ roads traffic_df 1 Hk Hroads) |].
  split; [rewrite map_map; simpl; apply map_id |].
  intros road Hroad x. apply in_map_iff in Hroad. destruct Hroad as (r & <- & _).
  simpl in x.
  set (data := map (fun s => (lat s, lon s)) (traffic_valid traffic_df)).
  set (cands := combine (map (planar_distance sqrtQ x) data) (seq 0 (List.length data))).
  destruct (sort_by_distance cands) as [| [d i] t] eqn:E.
  { pose proof (candidates_length sqrtQ data x) as L. fold cands in L.
    rewrite E in L. unfold data in L. rewrite length_map in L. simpl in L. lia. }
  destruct (sort_by_distance_head cands _ _ E) as [Hin Hmin].
  assert (Hnb : neighbours sqrtQ traffic_df r 1
                = [(d, nth i (valid_values traffic_df) 0)]).
  { unfold neighbours, nearest. fold data. fold x. fold cands. rewrite E. reflexivity. }
  assert (He : In (d, nth i (valid_values traffic_df) 0) (neighbours sqrtQ traffic_df r 1))
    by (rewrite Hnb; left; reflexivity).
  destruct (neighbours_are_valid_samples sqrtQ _ _ _ _ He) as (s & Hs & Hv & Hd).
  simpl in Hv, Hd. fold x in Hd.
  exists s, (nth i (valid_values traffic_df) 0).
  split; [exact Hs |]. split; [exact Hv |]. split.
  - eexists. split; [reflexivity |]. simpl. rewrite Hnb.
    assert (Hb : nth i (valid_values traffic_df) 0
                 <= idw_value [(d, nth i (valid_values traffic_df) 0)]
                 <= nth i (valid_values traffic_df) 0); [| lra].
    apply idw_value_between; [discriminate |].
    intros e [<- | []]. simpl. lra.
  - intros s' Hs' Hv'. rewrite <- Hd.
    assert (Hs'v : In s' (traffic_valid traffic_df)).
    { apply filter_In. split; [exact Hs' |]. unfold is_valid.
      destruct (congestion_factor s'); [reflexivity | contradiction]. }
    apply In_nth_error in Hs'v. destruct Hs'v as [j Hj].
    assert (Hc : In (planar_distance sqrtQ x (lat s', lon s'), j) cands).
    { unfold cands. apply nth_error_In with (n := j). apply nth_error_combine_intro.
      - unfold data. rewrite !nth_error_map, Hj. reflexivity.
      - assert (Hlt : (j < List.length data)%nat).
        { unfold data. rewrite length_map. apply nth_error_Some. congruence. }
        rewrite (nth_error_nth' _ 0%nat) by (rewrite length_seq; exact Hlt).
        rewrite seq_nth by exact Hlt. reflexivity. }
    exact (Hmin _ Hc).
Qed.

End InterpolationMore.

(** ** More on the hour-of-day curve and the slider labels *)

Ltac decide_hour_tests :=
  repeat first
    [ rewrite (proj2 (Z.leb_le _ _)) by lia
    | rewrite (proj2 (Z.leb_gt _ _)) by lia
    | rewrite (proj2 (Z.ltb_lt _ _)) by lia
    | rewrite (proj2 (Z.ltb_ge _ _)) by lia ];
  cbn [andb orb].

Lemma get_time_multiplier_values (hour : Z) :
  0.3 <= get_time_multiplier hour <= 2.5 /\
  ((hour < 0 \/ 24 <= hour)%Z -> get_time_multiplier hour = 0.5).
Proof.
  assert (C : (hour < 3 \/ 3 <= hour < 6 \/ hour = 6 \/ 7 <= hour < 9 \/ hour = 9 \/
               10 <= hour < 16 \/ hour = 16 \/ 17 <= hour < 20 \/
               20 <= hour < 23 \/ 23 <= hour)%Z) by lia.
  unfold get_time_multiplier.
  destruct C as [C | [C | [C | [C | [C | [C | [C | [C | [C | C]]]]]]]]];
    decide_hour_tests; (split; [split; discriminate | intro; first [reflexivity | lia]]).
Qed.

(** X5: for every integer, in 0..23 or not, the multiplier lies between
    0.3 and 2.5, the bounds of the docstring; a negative hour and an hour
    of 24 or more are treated as late night (0.5). *)
Theorem get_time_multiplier_range (hour : Z) :
  0.3 <= get_time_multiplier hour <= 2.5 /\
  ((hour < 0 \/ 24 <= hour)%Z -> get_time_multiplier hour = 0.5).
Proof.
  exact (get_time_multiplier_values hour).
Qed.



(** X7: the slider's 12-hour clock, for the hours 0..23: the displayed hour
    is in 1..12 and, with the AM/PM mark, identifies the hour. *)
Theorem twelve_hour_clock_round_trip (hour : Z) :
  (0 <= hour < 24)%Z ->
  (1 <= js_display_hour hour <= 12)%Z /\
  hour = (js_display_hour hour mod 12
          + match js_ampm hour with AM => 0 | PM => 12 end)%Z.
Proof.
  intro Hrange. unfold js_display_hour, js_ampm.
  rewrite Z.rem_mod_nonneg by lia.
  pose proof (Z.mod_pos_bound hour 12 ltac:(lia)) as Hm.
  pose proof (Z.div_mod hour 12 ltac:(lia)) as Hd.
  destruct (Z.eqb_spec (hour mod 12) 0) as [E | E];
    destruct (Z.leb_spec 12 hour) as [L | L]; split; try lia.
  - change (12 mod 12)%Z with 0%Z. assert (hour / 12 = 1)%Z by lia. lia.
  - change (12 mod 12)%Z with 0%Z. assert (hour / 12 = 0)%Z by lia. lia.
  - rewrite Z.mod_mod by lia. assert (hour / 12 = 1)%Z by lia. lia.
  - rewrite Z.mod_mod by lia. assert (hour / 12 = 0)%Z by lia. lia.
Qed.

Lemma twelve_hour_clock_round_trip_witness :
  (1 <= js_display_hour 15 <= 12)%Z /\
  15%Z = (js_display_hour 15 mod 12
          + match js_ampm 15 with AM => 0 | PM => 12 end)%Z.
Proof.
  apply (twelve_hour_clock_round_trip 15). lia.
Defined.

(** ** Colours as strings *)

Lemma all_bytes_round_trip :
  forallb byte_round_trips (map Z.of_nat (seq 0 256)) = true.
Proof. vm_compute. reflexivity. Qed.

Lemma format_02x_byte (n : Z) :
  (0 <= n <= 255)%Z ->
  exists hi lo,
    format_02x n = String hi (String lo EmptyString) /\
    hex_pair_value hi lo = Some n.
Proof.
  intro H.
  assert (Hin : In n (map Z.of_nat (seq 0 256))).
  { replace n with (Z.of_nat (Z.to_nat n)) by lia. apply in_map, in_seq. lia. }
  pose proof (proj1 (forallb_forall _ _) all_bytes_round_trip n Hin) as Hb.
  unfold byte_round_trips in Hb.
  destruct (format_02x n) as [| hi [| lo [| c rest]]]; try discriminate Hb.
  destruct (hex_pair_value hi lo) as [v |] eqn:E; [| discriminate Hb].
  apply Z.eqb_eq in Hb. subst v. exists hi, lo. split; [reflexivity | exact E].
Qed.

Lemma rgb_to_hex_parse (r g b : Z) :
  (0 <= r <= 255)%Z -> (0 <= g <= 255)%Z -> (0 <= b <= 255)%Z ->
  String.length (rgb_to_hex r g b) = 7%nat /\
  parse_rgb_hex (rgb_to_hex r g b) = Some (r, g, b).
Proof.
  intros Hr Hg Hb. unfold rgb_to_hex.
  destruct (format_02x_byte r Hr) as (r1 & r0 & -> & Er).
  destruct (format_02x_byte g Hg) as (g1 & g0 & -> & Eg).
  destruct (format_02x_byte b Hb) as (b1 & b0 & -> & Eb).
  cbn [append String.length parse_rgb_hex]. rewrite Er, Eg, Eb.
  split; reflexivity.
Qed.

(** X8: for channels in 0..255, [rgb_to_hex] writes a 7-character string
    from which the three channels are read back. *)
Theorem rgb_to_hex_round_trip (r g b : Z) :
  (0 <= r <= 255)%Z -> (0 <= g <= 255)%Z -> (0 <= b <= 255)%Z ->
  String.length (rgb_to_hex r g b) = 7%nat /\
  parse_rgb_hex (rgb_to_hex r g b) = Some (r, g, b).
Proof.
  exact (rgb_to_hex_parse r g b).
Qed.

Lemma rgb_to_hex_round_trip_witness :
  rgb_to_hex 2 255 252 = "#02fffc"%string /\
  parse_rgb_hex (rgb_to_hex 2 255 252) = Some (2, 255, 252)%Z.
Proof.
  split; [reflexivity |].
  apply (rgb_to_hex_round_trip 2 255 252); lia.
Defined.

Lemma normalized_range (c m : Q) :
  0 <= c -> 0 < m -> 0 <= py_min (c / m) 1 <= 1.
Proof.
  intros Hc Hm.
  assert (Hq : 0 <= c / m) by (apply Qle_shift_div_l; lra).
  unfold py_min. destruct (Qltb 1 (c / m)) eqn:E.
  - lra.
  - apply Qltb_ge in E. lra.
Qed.

Lemma gradient_channels_bytes (n : Q) :
  0 <= n <= 1 ->
  exists r g b,
    gradient_channels n = (r, g, b) /\
    (0 <= r <= 255)%Z /\ (0 <= g <= 255)%Z /\ (0 <= b <= 255)%Z.
Proof.
  intro H.
  destruct (gradient_channels_segments n H) as (r & g & b & E & S1 & S2 & S3).
  exists r, g, b. split; [exact E |].
  destruct (Qlt_le_dec n 0.33) as [L1 | L1].
  - destruct (S1 L1) as (-> & Hg & ->). lia.
  - destruct (Qlt_le_dec n 0.66) as [L2 | L2].
    + destruct (S2 (conj L1 L2)) as (Hr & -> & Hb). lia.
    + destruct (S3 L2) as (-> & Hg & ->). lia.
Qed.

Lemma gradient_color_well_formed (c m : Q) :
  0 <= c -> 0 < m ->
  exists s r g b,
    get_smooth_gradient_color (Some c) m = Ok s /\
    String.length s = 7%nat /\
    parse_rgb_hex s = Some (r, g, b) /\
    (0 <= r <= 255)%Z /\ (0 <= g <= 255)%Z /\ (0 <= b <= 255)%Z.
Proof.
  intros Hc Hm.
  destruct (gradient_channels_bytes _ (normalized_range c m Hc Hm))
    as (r & g & b & E & Hr & Hg & Hb).
  exists (rgb_to_hex r g b), r, g, b.
  split.
  - rewrite (gradient_color_of_normalized c m _ Hm (Qeq_refl _)). rewrite E. reflexivity.
  - destruct (rgb_to_hex_parse r g b Hr Hg Hb) as [Hl Hp]. auto.
Qed.

(** X9: for a known non-negative congestion and a positive ceiling the
    colour mapper returns a well-formed colour: [#] and six lower-case
    hexadecimal digits, the channels being in 0..255. *)
Theorem gradient_color_is_a_hex_color (c m : Q) :
  0 <= c -> 0 < m ->
  exists s r g b,
    get_smooth_gradient_color (Some c) m = Ok s /\
    String.length s = 7%nat /\
    parse_rgb_hex s = Some (r, g, b) /\
    (0 <= r <= 255)%Z /\ (0 <= g <= 255)%Z /\ (0 <= b <= 255)%Z.
Proof.
  exact (gradient_color_well_formed c m).
Qed.

Lemma gradient_color_is_a_hex_color_witness :
  exists s r g b,
    get_smooth_gradient_color (Some 0.2) 0.6 = Ok s /\
    String.length s = 7%nat /\
    parse_rgb_hex s = Some (r, g, b) /\
    (0 <= r <= 255)%Z /\ (0 <= g <= 255)%Z /\ (0 <= b <= 255)%Z.
Proof.
  apply (gradient_color_is_a_hex_color 0.2 0.6); [discriminate | reflexivity].
Defined.

Lemma parse_rgb_hex_minus (rest : string) :
  parse_rgb_hex (String "#" (String "0" (String "0" (String "-" rest)))) = None.
Proof.
  destruct rest as [| a [| b [| c [| d rest]]]]; reflexivity.
Qed.

(** X10: a negative congestion is not guarded: once value / ceiling is at
    most -0.33/255 the green channel is negative, its two-digit format
    carries a minus sign, and the string returned is not a colour. *)
Theorem negative_congestion_gives_no_color (c m : Q) :
  0 < m -> c / m <= - (0.33 / 255) ->
  exists s,
    get_smooth_gradient_color (Some c) m = Ok s /\
    parse_rgb_hex s = None.
Proof.
  intros Hm Hneg.
  assert (Hc : -(0.33 / 255) == -(33 # 25500)) by reflexivity.
  rewrite Hc in Hneg. clear Hc.
  assert (Hn : py_min (c / m) 1 == c / m).
  { unfold py_min. destruct (Qltb 1 (c / m)) eqn:E; [| reflexivity].
    apply Qltb_lt in E. lra. }
  rewrite (gradient_color_of_normalized c m _ Hm Hn).
  unfold gradient_channels.
  assert (E1 : Qltb (c / m) 0.33 = true) by (apply Qltb_lt; lra).
  rewrite E1.
  set (x := 255 * (c / m / 0.33)).
  assert (Hx : x <= -1).
  { unfold x. assert (D : c / m / 0.33 == c / m * (100 # 33)) by reflexivity.
    rewrite D. lra. }
  assert (Hg : (py_int x <= -1)%Z).
  { unfold py_int. destruct (Qle_bool 0 x) eqn:E0.
    - apply Qle_bool_iff in E0. lra.
    - change (-1)%Z with (Qceiling (-1)). apply Qceiling_resp_le. exact Hx. }
  destruct (py_int x) as [| p | p] eqn:Ep; try lia.
  eexists. split; [reflexivity |].
  unfold rgb_to_hex. cbn [format_02x hex_magnitude Z.ltb Z.compare append].
  apply parse_rgb_hex_minus.
Qed.

Lemma negative_congestion_gives_no_color_witness :
  get_smooth_gradient_color (Some (-0.1)) 0.6 = Ok "#00-80ff"%string /\
  exists s,
    get_smooth_gradient_color (Some (-0.1)) 0.6 = Ok s /\ parse_rgb_hex s = None.
Proof.
  split; [reflexivity |].
  apply (negative_congestion_gives_no_color (-0.1) 0.6); [reflexivity | discriminate].
Defined.

(** ** More on the hourly snapshots *)

Lemma dict_get_map_inv {V} (f : Z -> V) (keys : list Z) (key : Z) (v : V) :
  dict_get (map (fun h => (h, f h)) keys) key = Some v ->
  In key keys /\ v = f key.
Proof.
  induction keys as [| h keys IH]; simpl; intro H.
  - discriminate H.
  - destruct (Z.eqb_spec h key) as [-> | Hne].
    + inversion H. split; [left; reflexivity | reflexivity].
    + destruct (IH H) as [Hin Hv]. split; [right; exact Hin | exact Hv].
Qed.

Lemma Ok_inj {A} (a b : A) : Ok a = Ok b -> a = b.
Proof.
  intro H. inversion H. reflexivity.
Qed.

(** The features of the snapshot of an hour, read off the roads. *)
Lemma snapshot_features (roads : list Road) (snapshots : list (Z * list Feature))
      (hour : Z) (features : list Feature) :
  generate_hourly_snapshots roads = Ok snapshots ->
  dict_get snapshots hour = Some features ->
  (0 <= hour < 24)%Z /\
  features =
  map (fun road =>
         mkFeature (segment road)
           (option_map (fun c => c * get_time_multiplier hour) (congestion_level road))
           (hourly_color
              (option_map (fun c => c * get_time_multiplier hour)
                          (congestion_level road))))
      roads.
Proof.
  intros Hgen Hget. rewrite generate_hourly_snapshots_ok in Hgen.
  apply Ok_inj in Hgen. subst snapshots.
  apply (dict_get_map_inv (fun hour => map _ roads)) in Hget.
  destruct Hget as [Hin ->]. split; [| reflexivity].
  apply in_map_iff in Hin. destruct Hin as (n & <- & Hn). apply in_seq in Hn. lia.
Qed.

Lemma Forall2_map_right {A B} (P : A -> B -> Prop) (f : A -> B) (l : list A) :
  (forall a, In a l -> P a (f a)) -> Forall2 P l (map f l).
Proof.
  induction l as [| a l IH]; intro H; simpl; constructor.
  - apply H. left. reflexivity.
  - apply IH. intros x Hx. apply H. right. exact Hx.
Qed.

Lemma hourly_color_saturated (v : Q) :
  DEFAULT_MAX_CONGESTION <= v -> hourly_color (Some v) = "#ff0000"%string.
Proof.
  intro H. unfold hourly_color.
  rewrite (gradient_color_of_normalized v DEFAULT_MAX_CONGESTION 1);
    [reflexivity | reflexivity |].
  unfold py_min. destruct (Qltb 1 (v / DEFAULT_MAX_CONGESTION)) eqn:E; [reflexivity |].
  apply Qltb_ge in E.
  assert (1 <= v / DEFAULT_MAX_CONGESTION).
  { apply Qle_shift_div_l; [reflexivity |]. unfold DEFAULT_MAX_CONGESTION in *. lra. }
  lra.
Qed.

(** X11: the colours saturate: in the snapshot of an hour, every road whose
    base level times the hour's multiplier reaches the default ceiling 0.6
    is drawn in pure red, whatever the excess (at the evening rush, 2.5x,
    every road with a base level of 0.24 or more). *)
Theorem hourly_colors_saturate
        (roads : list Road) (snapshots : list (Z * list Feature))
        (hour : Z) (features : list Feature) :
  generate_hourly_snapshots roads = Ok snapshots ->
  dict_get snapshots hour = Some features ->
  Forall2 (fun road f =>
             feature_road f = segment road /\
             forall c, congestion_level road = Some c ->
                       0.6 <= c * get_time_multiplier hour ->
                       color f = "#ff0000"%string)
          roads features.
Proof.
  intros Hgen Hget.
  destruct (snapshot_features roads snapshots hour features Hgen Hget) as [_ ->].
  apply Forall2_map_right. intros road _. split; [reflexivity |].
  intros c Hc Hsat. simpl. rewrite Hc. simpl.
  apply hourly_color_saturated. exact Hsat.
Qed.

(** X12: where the multiplier is 1 (the daytime hours 10..15, and hour 6)
    the snapshot reproduces the base field: the same levels, unknown where
    the base is unknown, and the road order is kept. *)
Theorem unit_multiplier_reproduces_base
        (roads : list Road) (snapshots : list (Z * list Feature))
        (hour : Z) (features : list Feature) :
  generate_hourly_snapshots roads = Ok snapshots ->
  dict_get snapshots hour = Some features ->
  get_time_multiplier hour == 1 ->
  Forall2 (fun road f =>
             feature_road f = segment road /\
             same_level (feature_congestion_level f) (congestion_level road))
          roads features.
Proof.
  intros Hgen Hget Hone.
  destruct (snapshot_features roads snapshots hour features Hgen Hget) as [_ ->].
  apply Forall2_map_right. intros road _. split; [reflexivity |].
  simpl. destruct (congestion_level road) as [c |]; simpl; [| exact I].
  rewrite Hone. ring.
Qed.

Lemma hourly_color_parses (v : Q) :
  0 <= v -> exists r g b, parse_rgb_hex (hourly_color (Some v)) = Some (r, g, b).
Proof.
  intro Hv. unfold hourly_color.
  destruct (gradient_color_well_formed v DEFAULT_MAX_CONGESTION Hv eq_refl)
    as (s & r & g & b & -> & _ & Hp & _).
  exists r, g, b. exact Hp.
Qed.


(** ** More on the grid generator *)

Lemma np_arange_value (start stop step : Q) :
  ~ step == 0 ->
  np_arange start stop step =
  Ok (map (fun i => start + inject_Z (Z.of_nat i) * step)
          (seq 0 (arange_length start stop step))).
Proof.
  intro H. unfold np_arange, arange_length. destruct (Qeq_bool step 0) eqn:E.
  - apply Qeq_bool_iff in E. contradiction.
  - reflexivity.
Qed.

Lemma generate_grid_value (bbox : BBox) (spacing : Q) :
  ~ spacing == 0 ->
  generate_grid bbox spacing =
  Ok (flat_map
        (fun la =>
           map (fun lo => (la, lo))
               (map (fun j => lon_min bbox + inject_Z (Z.of_nat j) * spacing)
                    (seq 0 (arange_length (lon_min bbox) (lon_max bbox) spacing))))
        (map (fun i => lat_min bbox + inject_Z (Z.of_nat i) * spacing)
             (seq 0 (arange_length (lat_min bbox) (lat_max bbox) spacing)))).
Proof.
  intro H. unfold generate_grid. rewrite !np_arange_value by exact H. reflexivity.
Qed.

Lemma flat_map_length_const {A B} (f : A -> list B) (n : nat) (l : list A) :
  (forall a, List.length (f a) = n) ->
  List.length (flat_map f l) = (List.length l * n)%nat.
Proof.
  intro H. induction l as [| a l IH]; simpl; [reflexivity |].
  rewrite length_app, H, IH. reflexivity.
Qed.

Lemma flat_map_nth_error_const {A B} (f : A -> list B) (n : nat) (l : list A)
      (i j : nat) (a : A) :
  (forall a, List.length (f a) = n) ->
  nth_error l i = Some a -> (j < n)%nat ->
  nth_error (flat_map f l) (i * n + j) = nth_error (f a) j.
Proof.
  intros H. revert i. induction l as [| x l IH]; intros i Hi Hj.
  - destruct i; discriminate Hi.
  - destruct i as [| i]; simpl in *.
    + inversion Hi. subst x. apply nth_error_app1. rewrite H. exact Hj.
    + rewrite nth_error_app2 by (rewrite H; lia).
      rewrite H. replace (n + i * n + j - n)%nat with (i * n + j)%nat by lia.
      apply IH; assumption.
Qed.

Lemma arange_element_bounds (start stop step : Q) (i : nat) :
  0 < step -> (i < arange_length start stop step)%nat ->
  start <= start + inject_Z (Z.of_nat i) * step < stop.
Proof.
  intros Hs Hi. unfold arange_length in Hi.
  set (q := (stop - start) / step) in *.
  assert (H0 : 0 <= inject_Z (Z.of_nat i)).
  { change 0 with (inject_Z 0). rewrite <- Zle_Qle. lia. }
  assert (H1 : inject_Z (Z.of_nat i) < q).
  { apply Qle_lt_trans with (inject_Z (Qceiling q - 1)).
    - rewrite <- Zle_Qle. lia.
    - apply Qceiling_lt. }
  assert (H2 : q * step == stop - start) by (unfold q; field; lra).
  assert (H3 : inject_Z (Z.of_nat i) * step < q * step)
    by (apply Qmult_lt_compat_r; assumption).
  assert (H4 : 0 <= inject_Z (Z.of_nat i) * step)
    by (apply Qmult_le_0_compat; lra).
  lra.
Qed.



Lemma arange_length_one (start stop step : Q) :
  0 < step -> start < stop -> stop <= start + step ->
  arange_length start stop step = 1%nat.
Proof.
  intros Hs H1 H2. unfold arange_length.
  set (q := (stop - start) / step).
  assert (Hq0 : 0 < q) by (unfold q; apply Qlt_shift_div_l; lra).
  assert (Hq1 : q <= 1) by (unfold q; apply Qle_shift_div_r; lra).
  assert (Hc1 : (Qceiling q <= 1)%Z).
  { change 1%Z with (Qceiling 1). apply Qceiling_resp_le. exact Hq1. }
  assert (Hc0 : (0 < Qceiling q)%Z).
  { rewrite Zlt_Qlt. pose proof (Qle_ceiling q). change (inject_Z 0) with 0. lra. }
  replace (Qceiling q) with 1%Z by lia. reflexivity.
Qed.

(** X16: a spacing at least as large as both extents of a non-empty box
    gives a single point, the corner (lat_min, lon_min). *)
Theorem oversized_spacing_gives_one_point (bbox : BBox) (spacing : Q) :
  0 < spacing ->
  lat_min bbox < lat_max bbox -> lat_max bbox <= lat_min bbox + spacing ->
  lon_min bbox < lon_max bbox -> lon_max bbox <= lon_min bbox + spacing ->
  exists p,
    generate_grid bbox spacing = Ok [p] /\
    fst p == lat_min bbox /\ snd p == lon_min bbox.
Proof.
  intros Hs Ha1 Ha2 Ho1 Ho2.
  rewrite generate_grid_value by lra.
  rewrite (arange_length_one _ _ _ Hs Ha1 Ha2), (arange_length_one _ _ _ Hs Ho1 Ho2).
  eexists. split; [reflexivity |]. simpl. split; ring.
Qed.

(** ** Requests and sleeps of the scan *)

(** The world after [retrieve_speeds], and what it returns, read off the
    one or two answers. *)
Lemma retrieve_speeds_run (session : Session) (la lo : Q) (w : world) :
  let first := session (requests_made w) la lo in
  let events := if rate_limited first
                then [EvGet la lo; EvSleep 5; EvGet la lo]
                else [EvGet la lo] in
  let n := if rate_limited first then 2%nat else 1%nat in
  snd (retrieve_speeds session la lo w)
  = mkWorld (requests_made w + n) (log w ++ events) /\
  match fst (retrieve_speeds session la lo w) with
  | Ok speeds =>
      sample_of_speeds la lo speeds
      = sample_of_outcome la lo (final_outcome session (requests_made w) la lo)
  | Raise _ =>
      sample_of_outcome la lo (final_outcome session (requests_made w) la lo)
      = invalid_sample la lo
  end.
Proof.
  unfold retrieve_speeds, bind, session_get, final_outcome, rate_limited,
    time_sleep, raise_for_status, sample_of_outcome, raise, ret.
  destruct (session (requests_made w) la lo) as [r | |] eqn:E1; cbn [fst snd].
  - destruct (status_code r =? 429)%Z eqn:E429; cbn [requests_made log].
    + destruct (session (S (requests_made w)) la lo) as [r2 | |]; cbn [fst snd].
      * destruct ((400 <=? status_code r2) && (status_code r2 <? 600))%Z;
          cbn [fst snd]; repeat rewrite <- app_assoc;
          (split; [f_equal; first [lia | reflexivity] |]);
          [reflexivity | destruct (flowSegmentData r2); reflexivity].
      * repeat rewrite <- app_assoc.
        split; [f_equal; first [lia | reflexivity] | reflexivity].
      * repeat rewrite <- app_assoc.
        split; [f_equal; first [lia | reflexivity] | reflexivity].
    + destruct ((400 <=? status_code r) && (status_code r <? 600))%Z;
        cbn [fst snd];
        (split; [f_equal; first [lia | reflexivity] |]);
        [reflexivity | destruct (flowSegmentData r); reflexivity].
  - split; [f_equal; first [lia | reflexivity] | reflexivity].
  - split; [f_equal; first [lia | reflexivity] | reflexivity].
Qed.

Lemma fetch_congestion_run (session : Session) (la lo : Q) (w : world) :
  let first := session (requests_made w) la lo in
  fetch_congestion session la lo w
  = (Ok (sample_of_outcome la lo (final_outcome session (requests_made w) la lo)),
     mkWorld (requests_made w + (if rate_limited first then 2 else 1))
             (log w ++ (if rate_limited first
                        then [EvGet la lo; EvSleep 5; EvGet la lo]
                        else [EvGet la lo]))).
Proof.
  intro first.
  destruct (retrieve_speeds_run session la lo w) as [Hw Hr]. fold first in Hw.
  unfold fetch_congestion, try_except_RequestException, bind.
  destruct (retrieve_speeds session la lo w) as [[speeds | e] w'] eqn:E;
    cbn [fst snd] in Hw, Hr; subst w'.
  - unfold ret. rewrite Hr. reflexivity.
  - rewrite (retrieve_speeds_raises _ _ _ _ _ _ E). unfold ret. rewrite Hr. reflexivity.
Qed.

(** X17: one call of [fetch_congestion] issues one request, or, exactly
    when the first answer has status 429, two requests for the same point
    with a 5-second sleep in between; the row it returns is decided by the
    last answer alone: invalid for a transport failure or a 4xx/5xx status,
    else computed from the speeds of that answer. *)
Theorem fetch_congestion_retries_once (session : Session) (la lo : Q) (w : world) :
  let first := session (requests_made w) la lo in
  exists sample w',
    fetch_congestion session la lo w = (Ok sample, w') /\
    sample = sample_of_outcome la lo (final_outcome session (requests_made w) la lo) /\
    (rate_limited first = true ->
     log w' = log w ++ [EvGet la lo; EvSleep 5; EvGet la lo] /\
     requests_made w' = (requests_made w + 2)%nat) /\
    (rate_limited first = false ->
     log w' = log w ++ [EvGet la lo] /\
     requests_made w' = (requests_made w + 1)%nat).
Proof.
  intro first. do 2 eexists.
  split; [apply fetch_congestion_run |]. split; [reflexivity |].
  fold first. split; intro H; rewrite H; split; reflexivity.
Qed.

(** X18: the clamp of the congestion factor at its two ends: with a
    positive free-flow speed, a current speed at or above free flow gives
    the factor 0 (never a negative one), a current speed of 0 or below
    gives 1, and in between the factor is 1 - current / free_flow. *)
Theorem congestion_factor_clamp_edges (la lo cs ffs : Q) :
  0 < ffs ->
  exists c,
    sample_of_speeds la lo (Some cs, Some ffs)
    = mkSample la lo (Some cs) (Some ffs) (Some c) /\
    (ffs <= cs -> c == 0) /\
    (cs <= 0 -> c == 1) /\
    (0 <= cs <= ffs -> c == 1 - cs / ffs).
Proof.
  intro Hf. unfold sample_of_speeds.
  rewrite (proj2 (Qltb_lt 0 ffs) Hf). eexists. split; [reflexivity |].
  set (x := 1 - cs / ffs).
  assert (Hq : cs / ffs * ffs == cs) by (field; lra).
  assert (H1 : ffs <= cs -> x <= 0).
  { intro H. assert (1 <= cs / ffs) by (apply Qle_shift_div_l; lra). unfold x. lra. }
  assert (H2 : cs <= 0 -> 1 <= x).
  { intro H. assert (cs / ffs <= 0) by (apply Qle_shift_div_r; lra). unfold x. lra. }
  assert (H3 : 0 <= cs <= ffs -> 0 <= x <= 1).
  { intros [Ha Hb].
    assert (0 <= cs / ffs) by (apply Qle_shift_div_l; lra).
    assert (cs / ffs <= 1) by (apply Qle_shift_div_r; lra). unfold x. lra. }
  unfold py_max, py_min.
  destruct (Qltb x 1) eqn:E1; [apply Qltb_lt in E1 | apply Qltb_ge in E1].
  - destruct (Qltb 0 x) eqn:E0; [apply Qltb_lt in E0 | apply Qltb_ge in E0];
      (split; [| split]); intro H;
      try specialize (H1 H); try specialize (H2 H); try specialize (H3 H);
      try reflexivity; lra.
  - replace (Qltb 0 1) with true by reflexivity.
    (split; [| split]); intro H;
      try specialize (H1 H); try specialize (H2 H); try specialize (H3 H);
      try reflexivity; lra.
Qed.

Lemma count_events_app (p : event -> bool) (l1 l2 : list event) :
  count_events p (l1 ++ l2) = (count_events p l1 + count_events p l2)%nat.
Proof.
  unfold count_events. rewrite filter_app, length_app. reflexivity.
Qed.

(** The events of one fetch: one or two requests for the point, no pacing
    sleep, at most one back-off sleep. *)
Lemma fetch_congestion_events (session : Session) (la lo : Q) (w : world) :
  exists sample events,
    fetch_congestion session la lo w
    = (Ok sample, mkWorld (requests_made w + count_events is_get events)
                          (log w ++ events)) /\
    (1 <= count_events is_get events <= 2)%nat /\
    count_events is_pacing_sleep events = 0%nat /\
    (count_events is_backoff_sleep events <= 1)%nat /\
    (forall e, In e events -> e = EvGet la lo \/ e = EvSleep 5).
Proof.
  rewrite fetch_congestion_run.
  destruct (rate_limited (session (requests_made w) la lo)).
  - exists (sample_of_outcome la lo (final_outcome session (requests_made w) la lo)),
      [EvGet la lo; EvSleep 5; EvGet la lo].
    split; [reflexivity |].
    split; [cbn; lia |]. split; [reflexivity |]. split; [cbn; lia |].
    intros e [<- | [<- | [<- | []]]]; auto.
  - exists (sample_of_outcome la lo (final_outcome session (requests_made w) la lo)),
      [EvGet la lo].
    split; [reflexivity |].
    split; [cbn; lia |]. split; [reflexivity |]. split; [cbn; lia |].
    intros e [<- | []]; auto.
Qed.

Lemma scan_loop_events (session : Session) (total : nat) (grid : list (Q * Q)) :
  forall (i : nat) (results : list FlowSample) (w : world),
    (i + List.length grid = S total)%nat ->
    exists rows events,
      scan_loop session total i grid results w
      = (Ok rows, mkWorld (requests_made w + count_events is_get events)
                          (log w ++ events)) /\
      (List.length grid <= count_events is_get events <= 2 * List.length grid)%nat /\
      count_events is_pacing_sleep events = (List.length grid - 1)%nat /\
      (count_events is_backoff_sleep events <= List.length grid)%nat /\
      (forall la lo, In (EvGet la lo) events -> In (la, lo) grid).
Proof.
  induction grid as [| [la lo] rest IH]; intros i results w Hi.
  - exists results, []. cbn. rewrite Nat.add_0_r, app_nil_r.
    split; [destruct w; reflexivity |]. repeat split; try lia; intros la lo [].
  - destruct (fetch_congestion_events session la lo w)
      as (sample & ev & Hf & Hget & Hpace & Hback & Hev).
    set (w1 := mkWorld (requests_made w + count_events is_get ev) (log w ++ ev)) in *.
    set (pause := if (i <? total)%nat then [EvSleep 0.2] else []).
    assert (Hs : (if (i <? total)%nat then time_sleep 0.2 else ret tt) w1
                  = (Ok tt, mkWorld (requests_made w1) (log w1 ++ pause))).
    { unfold pause. destruct (i <? total)%nat.
      - reflexivity.
      - unfold ret. rewrite app_nil_r. destruct w1; reflexivity. }
    simpl in Hi.
    destruct (IH (S i) (results ++ [sample])
                 (mkWorld (requests_made w1) (log w1 ++ pause)))
      as (rows & evs & Hl & Hgets & Hpaces & Hbacks & Hevs); [lia |].
    exists rows, (ev ++ pause ++ evs). split.
    + cbn [scan_loop]. unfold bind at 1. rewrite Hf. unfold bind at 1. rewrite Hs.
      rewrite Hl. unfold w1. cbn [requests_made log].
      rewrite !count_events_app.
      assert (Hp0 : count_events is_get pause = 0%nat)
        by (unfold pause; destruct (i <? total)%nat; reflexivity).
      rewrite Hp0. f_equal. f_equal; [lia |].
      rewrite <- !app_assoc. reflexivity.
    + rewrite !count_events_app.
      assert (Hp0 : count_events is_get pause = 0%nat)
        by (unfold pause; destruct (i <? total)%nat; reflexivity).
      assert (Hp1 : count_events is_backoff_sleep pause = 0%nat)
        by (unfold pause; destruct (i <? total)%nat; reflexivity).
      assert (Hp2 : count_events is_pacing_sleep pause
                    = if (i <? total)%nat then 1%nat else 0%nat)
        by (unfold pause; destruct (i <? total)%nat; reflexivity).
      rewrite Hp0, Hp1, Hp2, Hpace. cbn [List.length].
      split; [lia |]. split.
      * destruct (Nat.ltb_spec i total); lia.
      * split; [lia |].
        intros la' lo' Hin. apply in_app_or in Hin. destruct Hin as [Hin | Hin].
        -- destruct (Hev _ Hin) as [E | E]; inversion E. left. reflexivity.
        -- apply in_app_or in Hin. destruct Hin as [Hin | Hin].
           ++ unfold pause in Hin. destruct (i <? total)%nat;
                [destruct Hin as [E | []]; discriminate E | destruct Hin].
           ++ right. exact (Hevs _ _ Hin).
Qed.

(** X19: the budget of a scan of n points: between n and 2n requests, each
    for a grid point, exactly n - 1 pacing sleeps of 0.2 s (none after the
    last point, none for an empty grid), and at most n back-off sleeps of
    5 s; the log only grows. *)
Theorem scan_request_budget (session : Session) (grid : list (Q * Q)) (w : world) :
  exists rows events,
    scan_traffic_grid session grid w
    = (Ok rows, mkWorld (requests_made w + count_events is_get events)
                        (log w ++ events)) /\
    (List.length grid <= count_events is_get events <= 2 * List.length grid)%nat /\
    count_events is_pacing_sleep events = (List.length grid - 1)%nat /\
    (count_events is_backoff_sleep events <= List.length grid)%nat /\
    (forall la lo, In (EvGet la lo) events -> In (la, lo) grid).
Proof.
  apply scan_loop_events. lia.
Qed.

(** ** The rows of a scan *)

Lemma fetched_factor_in_unit_interval (session : Session) (pt : Q * Q)
      (s : FlowSample) (c : Q) :
  fetched_at session pt s -> congestion_factor s = Some c -> 0 <= c <= 1.
Proof.
  intros (w0 & w1 & Hf & _) Hc.
  destruct (fetch_congestion_cases session (fst pt) (snd pt) w0)
    as [(speeds & w' & _ & Hf') | (e & w' & _ & Hf')];
    rewrite Hf' in Hf; inversion Hf; subst s.
  - apply sample_of_speeds_factor in Hc. destruct Hc as (cs & ffs & _ & _ & ->).
    apply py_clamp_range.
  - discriminate Hc.
Qed.

Lemma scanned_rows_in_unit_interval (session : Session) (grid : list (Q * Q))
      (w w' : world) (rows : list FlowSample) :
  scan_traffic_grid session grid w = (Ok rows, w') ->
  forall s c, In s rows -> congestion_factor s = Some c -> 0 <= c <= 1.
Proof.
  intros Hscan s c Hs Hc.
  destruct (scan_loop_completes session (List.length grid) grid 1%nat [] w)
    as (rows' & w'' & Hl & _ & Hall).
  unfold scan_traffic_grid in Hscan. rewrite Hl in Hscan. inversion Hscan. subst rows'.
  clear Hscan Hl. induction Hall as [| pt s0 grid' rows' Hat _ IH].
  - destruct Hs.
  - destruct Hs as [-> | Hs].
    + exact (fetched_factor_in_unit_interval session pt s c Hat Hc).
    + exact (IH Hs).
Qed.

(** X20: every row of a scan keeps the sample invariant, whatever the
    provider answered: a congestion factor that is present lies in
    [0, 1]. *)
Theorem scan_rows_keep_the_factor_range (session : Session) (grid : list (Q * Q))
        (w w' : world) (rows : list FlowSample) :
  scan_traffic_grid session grid w = (Ok rows, w') ->
  forall s c, In s rows -> congestion_factor s = Some c -> 0 <= c <= 1.
Proof.
  exact (scanned_rows_in_unit_interval session grid w w' rows).
Qed.

(** ** The dense map *)

Lemma count_levels_is_count_color (p : Q -> bool) (col : string) (roads : list Road) :
  (forall c, p c = String.eqb (get_traffic_color (Some c)) col) ->
  String.eqb "#666666" col = false ->
  count_levels p roads = count_color col roads.
Proof.
  intros Hp Hgrey. unfold count_levels, count_color.
  induction roads as [| r roads IH]; simpl; [reflexivity |].
  destruct (congestion_level r) as [c |].
  - rewrite Hp. destruct (String.eqb (get_traffic_color (Some c)) col); simpl; congruence.
  - cbn [get_traffic_color]. rewrite Hgrey. exact IH.
Qed.

Lemma count_color_cons (col : string) (r : Road) (roads : list Road) :
  count_color col (r :: roads)
  = ((if String.eqb (get_traffic_color (congestion_level r)) col then 1 else 0)
     + count_color col roads)%nat.
Proof.
  unfold count_color. simpl.
  destruct (String.eqb (get_traffic_color (congestion_level r)) col); reflexivity.
Qed.

Lemma traffic_color_bands (c : Q) :
  Qltb c 0.2 = String.eqb (get_traffic_color (Some c)) "#00FF41" /\
  Qle_bool 0.2 c && Qltb c 0.4 = String.eqb (get_traffic_color (Some c)) "#FFFF00" /\
  Qle_bool 0.4 c && Qltb c 0.7 = String.eqb (get_traffic_color (Some c)) "#FF5500" /\
  Qle_bool 0.7 c = String.eqb (get_traffic_color (Some c)) "#FF0000".
Proof.
  assert (N2 : Qle_bool 0.2 c = negb (Qltb c 0.2))
    by (unfold Qltb; rewrite negb_involutive; reflexivity).
  assert (N4 : Qle_bool 0.4 c = negb (Qltb c 0.4))
    by (unfold Qltb; rewrite negb_involutive; reflexivity).
  assert (N7 : Qle_bool 0.7 c = negb (Qltb c 0.7))
    by (unfold Qltb; rewrite negb_involutive; reflexivity).
  rewrite N2, N4, N7. unfold get_traffic_color.
  destruct (Qltb c 0.2) eqn:E2; destruct (Qltb c 0.4) eqn:E4;
    destruct (Qltb c 0.7) eqn:E7; cbn; repeat split; try reflexivity;
    repeat match goal with
           | H : Qltb _ _ = true |- _ => apply Qltb_lt in H
           | H : Qltb _ _ = false |- _ => apply Qltb_ge in H
           end; lra.
Qed.

Lemma distribution_counts (roads_gdf : list Road) :
  let d := traffic_distribution roads_gdf in
  empty_roads d = count_color "#00FF41" roads_gdf /\
  moving_roads d = count_color "#FFFF00" roads_gdf /\
  heavy_roads d = count_color "#FF5500" roads_gdf /\
  gridlock_roads d = count_color "#FF0000" roads_gdf /\
  (empty_roads d + moving_roads d + heavy_roads d + gridlock_roads d
   + count_color "#666666" roads_gdf = List.length roads_gdf)%nat.
Proof.
  cbn zeta. unfold traffic_distribution. cbn [empty_roads moving_roads heavy_roads gridlock_roads].
  rewrite (count_levels_is_count_color _ "#00FF41")
    by (first [intro c; apply (traffic_color_bands c) | reflexivity]).
  rewrite (count_levels_is_count_color _ "#FFFF00")
    by (first [intro c; apply (traffic_color_bands c) | reflexivity]).
  rewrite (count_levels_is_count_color _ "#FF5500")
    by (first [intro c; apply (traffic_color_bands c) | reflexivity]).
  rewrite (count_levels_is_count_color _ "#FF0000")
    by (first [intro c; apply (traffic_color_bands c) | reflexivity]).
  repeat (split; [reflexivity |]).
  induction roads_gdf as [| r roads IH]; [reflexivity |].
  rewrite !count_color_cons.
  remember (count_color "#00FF41" roads) as n1.
  remember (count_color "#FFFF00" roads) as n2.
  remember (count_color "#FF5500" roads) as n3.
  remember (count_color "#FF0000" roads) as n4.
  remember (count_color "#666666" roads) as n5.
  cbn [List.length].
  destruct (congestion_level r) as [c |]; unfold get_traffic_color.
  - destruct (Qltb c 0.2); [cbn; lia |].
    destruct (Qltb c 0.4); [cbn; lia |].
    destruct (Qltb c 0.7); cbn; lia.
  - cbn. lia.
Qed.

(** X21: the distribution printed for the dense map matches what is drawn:
    the four band counts are the numbers of roads drawn green, yellow,
    orange and red, and with the roads drawn neutral grey (no level) they
    add up to the number of roads. *)
Theorem distribution_matches_the_map (roads_gdf : list Road) :
  let d := traffic_distribution roads_gdf in
  empty_roads d = count_color "#00FF41" roads_gdf /\
  moving_roads d = count_color "#FFFF00" roads_gdf /\
  heavy_roads d = count_color "#FF5500" roads_gdf /\
  gridlock_roads d = count_color "#FF0000" roads_gdf /\
  (empty_roads d + moving_roads d + heavy_roads d + gridlock_roads d
   + count_color "#666666" roads_gdf = List.length roads_gdf)%nat.
Proof.
  exact (distribution_counts roads_gdf).
Qed.

Lemma no_grey_when_levels_known (roads_gdf : list Road) :
  (forall road, In road roads_gdf -> congestion_level road <> None) ->
  count_color "#666666" roads_gdf = 0%nat.
Proof.
  induction roads_gdf as [| r roads IH]; intro H; [reflexivity |].
  rewrite count_color_cons.
  rewrite IH by (intros road Hr; apply H; right; exact Hr).
  pose proof (H r (or_introl eq_refl)) as Hr.
  destruct (congestion_level r) as [c |]; [| contradiction].
  unfold get_traffic_color.
  destruct (Qltb c 0.2); [reflexivity |].
  destruct (Qltb c 0.4); [reflexivity |].
  destruct (Qltb c 0.7); reflexivity.
Qed.


(** ** The road weight on the two maps *)

(** X23: a road class that the dense map draws thick (weight 2.5) is drawn
    thick by the time machine script too: each of the six main classes
    contains one of the three substrings the script looks for. *)
Theorem thick_on_the_dense_map_is_thick_on_the_time_machine (s : string) :
  get_road_weight (HwString s) = Ok 2.5 ->
  js_road_weight (HwString s) = 2.5.
Proof.
  unfold get_road_weight. cbn [rbind].
  destruct (existsb (String.eqb s) MAIN_ROAD_CLASSES) eqn:E; [| discriminate].
  intros _. apply existsb_exists in E. destruct E as (class & Hin & Heq).
  apply String.eqb_eq in Heq. subst class.
  unfold MAIN_ROAD_CLASSES in Hin. simpl in Hin.
  destruct Hin as [<- | [<- | [<- | [<- | [<- | [<- | []]]]]]]; reflexivity.
Qed.

Lemma thick_on_the_dense_map_is_thick_on_the_time_machine_witness :
  get_road_weight (HwString "trunk_link") = Ok 2.5 /\
  js_road_weight (HwString "trunk_link") = 2.5.
Proof.
  split; [reflexivity |].
  apply (thick_on_the_dense_map_is_thick_on_the_time_machine "trunk_link").
  reflexivity.
Defined.

(** ** The callers of the scan *)

Lemma present_is_valid_values (df : list FlowSample) :
  present (map congestion_factor df) = valid_values df.
Proof.
  unfold present, valid_values, traffic_valid.
  induction df as [| s df IH]; simpl; [reflexivity |].
  unfold is_valid at 1. destruct (congestion_factor s) as [c |] eqn:E; simpl.
  - rewrite E, IH. reflexivity.
  - exact IH.
Qed.

Lemma present_count (df : list FlowSample) :
  List.length (present (map congestion_factor df))
  = List.length (traffic_valid df) /\
  (List.length (traffic_valid df) <= List.length df)%nat.
Proof.
  split.
  - rewrite present_is_valid_values. apply valid_values_length.
  - unfold traffic_valid. apply filter_length_le.
Qed.

Lemma scan_rows (session : Session) (grid : list (Q * Q)) (w : world) :
  exists rows w',
    scan_traffic_grid session grid w = (Ok rows, w') /\
    map coordinate rows = grid.
Proof.
  destruct (scan_loop_completes session (List.length grid) grid 1%nat [] w)
    as (rows & w' & Hl & Hm & _).
  exists rows, w'. split; assumption.
Qed.

Lemma column_of_rows (df : list FlowSample) :
  (0 < List.length df)%nat ->
  congestion_factor_column df = Returned (map congestion_factor df).
Proof.
  destruct df; simpl; [lia | reflexivity].
Qed.

Lemma ratio_in_unit (a b : nat) :
  (a <= b)%nat -> (0 < b)%nat ->
  0 <= inject_Z (Z.of_nat a) / inject_Z (Z.of_nat b) * 100 <= 100.
Proof.
  intros Hab Hb.
  assert (Ha : 0 <= inject_Z (Z.of_nat a))
    by (change 0 with (inject_Z 0); rewrite <- Zle_Qle; lia).
  assert (Hb' : 0 < inject_Z (Z.of_nat b))
    by (change 0 with (inject_Z 0); rewrite <- Zlt_Qlt; lia).
  assert (Hle : inject_Z (Z.of_nat a) <= inject_Z (Z.of_nat b))
    by (rewrite <- Zle_Qle; lia).
  assert (0 <= inject_Z (Z.of_nat a) / inject_Z (Z.of_nat b))
    by (apply Qle_shift_div_l; lra).
  assert (inject_Z (Z.of_nat a) / inject_Z (Z.of_nat b) <= 1)
    by (apply Qle_shift_div_r; lra).
  lra.
Qed.

(** X24: the three ways [main] of the scanner ends, for a grid that
    [generate_grid] returns: without an API key it returns at once and
    issues no request; with a key and an empty grid it crashes with
    KeyError on the column [congestion_factor] before anything is saved,
    again without a request; with a key and a non-empty grid it saves one
    row per grid point and reports total = grid size, valid + failed =
    total and a valid percentage within [0, 100]. *)
Theorem scan_main_outcomes
        (api_key : option string) (session : Session) (bbox : BBox) (spacing : Q)
        (grid : list (Q * Q)) (w : world) :
  generate_grid bbox spacing = Ok grid ->
  (api_key_missing api_key = true ->
   scan_main api_key session bbox spacing w = (Returned None, w)) /\
  (api_key_missing api_key = false -> grid = [] ->
   scan_main api_key session bbox spacing w
   = (Crashed (KeyError "congestion_factor"), w)) /\
  (api_key_missing api_key = false -> grid <> [] ->
   exists report rows w',
     scan_main api_key session bbox spacing w = (Returned (Some (report, rows)), w') /\
     map coordinate rows = grid /\
     total_points report = List.length grid /\
     valid_points report = List.length (traffic_valid rows) /\
     (valid_points report + failed_queries report = total_points report)%nat /\
     0 <= valid_percent report <= 100).
Proof.
  intro Hgrid. unfold scan_main. rewrite Hgrid. split; [| split].
  - intros ->. reflexivity.
  - intros -> ->. reflexivity.
  - intros -> Hne.
    destruct (scan_rows session grid w) as (rows & w' & Hscan & Hcoord).
    rewrite Hscan.
    assert (Hlen : List.length rows = List.length grid)
      by (rewrite <- Hcoord; symmetry; apply length_map).
    assert (Hpos : (0 < List.length rows)%nat).
    { rewrite Hlen. destruct grid; [contradiction | simpl; lia]. }
    rewrite (column_of_rows rows Hpos).
    replace (List.length rows =? 0)%nat with false
      by (symmetry; apply Nat.eqb_neq; lia).
    destruct (present_count rows) as [Hp Hle].
    do 3 eexists. split; [reflexivity |]. cbn [total_points valid_points
      failed_queries valid_percent].
    split; [exact Hcoord |]. split; [exact Hlen |]. split; [exact Hp |].
    split; [lia |].
    apply ratio_in_unit; lia.
Qed.

Lemma Qsum_bounds (vs : list Q) (lo hi : Q) :
  (forall v, In v vs -> lo <= v <= hi) ->
  lo * inject_Z (Z.of_nat (List.length vs)) <= Qsum vs
  <= hi * inject_Z (Z.of_nat (List.length vs)).
Proof.
  induction vs as [| v vs IH]; intro H.
  - change (inject_Z (Z.of_nat (List.length (@nil Q)))) with 0.
    change (Qsum []) with 0. lra.
  - destruct IH as [IH1 IH2]; [intros x Hx; apply H; right; exact Hx |].
    destruct (H v (or_introl eq_refl)) as [Hv1 Hv2].
    cbn [List.length Qsum fold_right]. fold (Qsum vs).
    rewrite Nat2Z.inj_succ. unfold Z.succ. rewrite inject_Z_plus.
    change (inject_Z 1) with 1. lra.
Qed.

Lemma column_mean_bounds (column : list (option Q)) (lo hi m : Q) :
  (forall v, In v (present column) -> lo <= v <= hi) ->
  column_mean column = Some m -> lo <= m <= hi.
Proof.
  intros H Hm. unfold column_mean in Hm.
  destruct (present column) as [| v vs] eqn:E; [discriminate Hm |].
  injection Hm as <-.
  destruct (Qsum_bounds (v :: vs) lo hi H) as [Hlo Hhi].
  assert (Hn : 0 < inject_Z (Z.of_nat (List.length (v :: vs)))).
  { change 0 with (inject_Z 0). rewrite <- Zlt_Qlt. simpl List.length. lia. }
  split; [apply Qle_shift_div_l | apply Qle_shift_div_r]; assumption.
Qed.

Lemma running_max (vs : list Q) (v : Q) :
  let mx := fold_left (fun m x => if Qltb m x then x else m) vs v in
  In mx (v :: vs) /\ forall x, In x (v :: vs) -> x <= mx.
Proof.
  revert v. induction vs as [| y vs IH]; intro v; cbn [fold_left].
  - split; [left; reflexivity |]. intros x [<- | []]. lra.
  - destruct (Qltb v y) eqn:E.
    + apply Qltb_lt in E. destruct (IH y) as [Hin Hmax]. split.
      * right. exact Hin.
      * intros x [<- | Hx]; [| exact (Hmax x Hx)].
        specialize (Hmax y (or_introl eq_refl)). lra.
    + apply Qltb_ge in E. destruct (IH v) as [Hin Hmax]. split.
      * destruct Hin as [<- | Hin]; [left; reflexivity | right; right; exact Hin].
      * intros x [<- | [<- | Hx]].
        -- exact (Hmax v (or_introl eq_refl)).
        -- specialize (Hmax v (or_introl eq_refl)). lra.
        -- exact (Hmax x (or_intror Hx)).
Qed.

Lemma column_max_spec (column : list (option Q)) (mx : Q) :
  column_max column = Some mx ->
  In mx (present column) /\ forall x, In x (present column) -> x <= mx.
Proof.
  unfold column_max. destruct (present column) as [| v vs]; [discriminate |].
  intro H. inversion H. apply running_max.
Qed.


(** ** The names of the snapshot files *)

Lemma all_hours_two_digits :
  forallb two_digits_round_trip (map Z.of_nat (seq 0 24)) = true.
Proof. vm_compute. reflexivity. Qed.

Lemma format_02d_hour (h : Z) :
  (0 <= h < 24)%Z ->
  exists hi lo dh dl,
    format_02d h = String hi (String lo EmptyString) /\
    hex_digit_value hi = Some dh /\ hex_digit_value lo = Some dl /\
    (10 * dh + dl = h)%Z.
Proof.
  intro H.
  assert (Hin : In h (map Z.of_nat (seq 0 24))).
  { replace h with (Z.of_nat (Z.to_nat h)) by lia. apply in_map, in_seq. lia. }
  pose proof (proj1 (forallb_forall _ _) all_hours_two_digits h Hin) as Hb.
  unfold two_digits_round_trip in Hb.
  destruct (format_02d h) as [| hi [| lo [| c rest]]]; try discriminate Hb.
  destruct (hex_digit_value hi) as [dh |] eqn:Ehi; [| discriminate Hb].
  destruct (hex_digit_value lo) as [dl |] eqn:Elo; [| discriminate Hb].
  apply andb_true_iff in Hb. destruct Hb as [_ Hb]. apply Z.eqb_eq in Hb.
  exists hi, lo, dh, dl. repeat split; assumption.
Qed.

Lemma append_cancel_left (p a b : string) :
  (p ++ a = p ++ b)%string -> a = b.
Proof.
  induction p as [| c p IH]; simpl; intro H; [exact H |].
  inversion H. apply IH. assumption.
Qed.

(** X26: the snapshots of one day do not overwrite each other: for two
    clock readings with the same date and hours in 0..23, the file names
    (CSV or metadata) are equal only if the hours are equal. *)
Theorem snapshot_files_differ_by_hour (now1 now2 : Timestamp) (extension : string) :
  (0 <= ts_hour now1 < 24)%Z -> (0 <= ts_hour now2 < 24)%Z ->
  date_str now1 = date_str now2 ->
  snapshot_file_name now1 extension = snapshot_file_name now2 extension ->
  ts_hour now1 = ts_hour now2.
Proof.
  intros H1 H2 Hdate Hname. unfold snapshot_file_name in Hname.
  rewrite Hdate in Hname.
  apply (append_cancel_left "traffic_") in Hname.
  apply append_cancel_left in Hname.
  apply (append_cancel_left "_") in Hname.
  destruct (format_02d_hour _ H1) as (a1 & b1 & x1 & y1 & E1 & Ha1 & Hb1 & V1).
  destruct (format_02d_hour _ H2) as (a2 & b2 & x2 & y2 & E2 & Ha2 & Hb2 & V2).
  rewrite E1, E2 in Hname. simpl in Hname. inversion Hname. subst a2 b2.
  congruence.
Qed.

(** ** Concrete runs of the further properties *)

Lemma interpolation_ignores_invalid_rows_witness :
  interpolate_traffic_idw isqrtQ example_roads example_traffic 3
  = interpolate_traffic_idw isqrtQ example_roads
      (invalid_sample 44.1 26.1 :: traffic_valid example_traffic) 3.
Proof.
  apply (interpolation_ignores_invalid_rows isqrtQ). reflexivity.
Defined.


Lemma level_depends_on_centroid_only_witness :
  congestion_level (nth 0 example_twin_field (mkRoad (mkSegment (mkPoint 0 0) "x") None))
  = congestion_level (nth 1 example_twin_field (mkRoad (mkSegment (mkPoint 0 0) "x") None)).
Proof.
  apply (level_depends_on_centroid_only isqrtQ example_twin_roads example_traffic 3
           example_twin_field).
  - vm_compute. reflexivity.
  - vm_compute. left. reflexivity.
  - vm_compute. right. left. reflexivity.
  - reflexivity.
Defined.

Lemma k1_is_nearest_neighbour_witness :
  exists out,
    interpolate_traffic_idw isqrtQ example_roads example_traffic 1 = Ok out /\
    map segment out = example_roads.
Proof.
  destruct (k1_is_nearest_neighbour isqrtQ example_roads example_traffic)
    as (out & H1 & H2 & _).
  - discriminate.
  - discriminate.
  - exists out. split; assumption.
Defined.

Lemma hourly_colors_saturate_witness :
  exists snapshots features,
    generate_hourly_snapshots example_base = Ok snapshots /\
    dict_get snapshots 17 = Some features /\
    Forall2 (fun road f =>
               feature_road f = segment road /\
               forall c, congestion_level road = Some c ->
                         0.6 <= c * get_time_multiplier 17 ->
                         color f = "#ff0000"%string)
            example_base features.
Proof.
  do 2 eexists. split; [apply generate_hourly_snapshots_ok |].
  split; [reflexivity |].
  apply (hourly_colors_saturate example_base _ 17 _
           (generate_hourly_snapshots_ok example_base)); reflexivity.
Defined.

Lemma unit_multiplier_reproduces_base_witness :
  exists snapshots features,
    generate_hourly_snapshots example_base = Ok snapshots /\
    dict_get snapshots 12 = Some features /\
    Forall2 (fun road f =>
               feature_road f = segment road /\
               same_level (feature_congestion_level f) (congestion_level road))
            example_base features.
Proof.
  do 2 eexists. split; [apply generate_hourly_snapshots_ok |].
  split; [reflexivity |].
  apply (unit_multiplier_reproduces_base example_base _ 12 _
           (generate_hourly_snapshots_ok example_base)); reflexivity.
Defined.

Lemma example_traffic_in_unit_interval :
  forall s c, In s example_traffic -> congestion_factor s = Some c -> 0 <= c <= 1.
Proof.
  intros s c Hs Hc. simpl in Hs.
  destruct Hs as [<- | [<- | [<- | [<- | []]]]]; simpl in Hc;
    inversion Hc; split; discriminate.
Qed.




Lemma oversized_spacing_gives_one_point_witness :
  exists p,
    generate_grid (mkBBox 0 1 0 1) 2 = Ok [p] /\ fst p == 0 /\ snd p == 0.
Proof.
  apply (oversized_spacing_gives_one_point (mkBBox 0 1 0 1) 2);
    simpl; first [reflexivity | discriminate].
Defined.

Lemma congestion_factor_clamp_edges_witness :
  exists c,
    sample_of_speeds 44.0 26.0 (Some 60, Some 50)
    = mkSample 44.0 26.0 (Some 60) (Some 50) (Some c) /\ c == 0.
Proof.
  destruct (congestion_factor_clamp_edges 44.0 26.0 60 50) as (c & H1 & H2 & _).
  - reflexivity.
  - exists c. split; [exact H1 |]. apply H2. discriminate.
Defined.

Lemma example_scan_run :
  scan_traffic_grid example_session example_grid (mkWorld 0 [])
  = (Ok example_rows,
     snd (scan_traffic_grid example_session example_grid (mkWorld 0 []))).
Proof. vm_compute. reflexivity. Qed.

Lemma scan_rows_keep_the_factor_range_witness :
  match congestion_factor (hd (invalid_sample 0 0) example_rows) with
  | Some c => 0 <= c <= 1
  | None => True
  end.
Proof.
  pose proof (scan_rows_keep_the_factor_range example_session example_grid
                (mkWorld 0 []) _ _ example_scan_run
                (hd (invalid_sample 0 0) example_rows)) as H.
  assert (Hin : In (hd (invalid_sample 0 0) example_rows) example_rows)
    by (vm_compute; left; reflexivity).
  destruct (congestion_factor (hd (invalid_sample 0 0) example_rows)) as [c |];
    [exact (H c Hin eq_refl) | exact I].
Defined.


Lemma scan_main_outcomes_witness :
  scan_main (Some "key"%string) example_session BBOX (- GRID_SPACING) (mkWorld 0 [])
  = (Crashed (KeyError "congestion_factor"), mkWorld 0 []).
Proof.
  apply (scan_main_outcomes (Some "key"%string) example_session BBOX (- GRID_SPACING) []);
    reflexivity.
Defined.


Lemma snapshot_files_differ_by_hour_witness :
  ts_hour example_now = ts_hour (mkTimestamp "2025-12-06T08:59:59" 8 "20251206").
Proof.
  apply (snapshot_files_differ_by_hour example_now
           (mkTimestamp "2025-12-06T08:59:59" 8 "20251206") "csv");
    first [reflexivity | simpl; lia].
Defined.

(* ===================================================================== *)
(** * Part IV.  The scripts in binary64 *)
(* ===================================================================== *)

(** ** Powers of two *)
Lemma pow2_pos (e : Z) : 0 < pow2 e.
Proof. apply Qpower_0_lt. reflexivity. Qed.

Lemma pow2_add (a b : Z) : pow2 (a + b) == pow2 a * pow2 b.
Proof. apply Qpower_plus. discriminate. Qed.

Lemma pow2_succ (e : Z) : pow2 (e + 1) == 2 * pow2 e.
Proof. rewrite pow2_add. change (pow2 1) with 2. ring. Qed.

Lemma pow2_pred (e : Z) : pow2 e == 2 * pow2 (e - 1).
Proof. rewrite <- pow2_succ. replace (e - 1 + 1)%Z with e by lia. reflexivity. Qed.

Lemma pow2_le (a b : Z) : (a <= b)%Z -> pow2 a <= pow2 b.
Proof. intro H. apply Qpower_le_compat_l; [exact H | discriminate]. Qed.

Lemma pow2_lt (a b : Z) : (a < b)%Z -> pow2 a < pow2 b.
Proof. intro H. apply Qpower_lt_compat_l; [exact H | reflexivity]. Qed.

Lemma pow2_inject (z : Z) : (0 <= z)%Z -> pow2 z == inject_Z (2 ^ z).
Proof. intro H. unfold pow2. rewrite Zpower_Qpower by exact H. reflexivity. Qed.

Lemma pow2_lt_inv (a b : Z) : pow2 a < pow2 b -> (a < b)%Z.
Proof.
  intro H. destruct (Z.lt_ge_cases a b) as [L | G]; [exact L |].
  pose proof (pow2_le b a G). lra.
Qed.

(** ** The binade of a positive number *)
Lemma Qnum_pos (x : Q) : 0 < x -> (0 < Qnum x)%Z.
Proof. destruct x as [n d]. unfold Qlt. simpl. lia. Qed.

Lemma binade_spec (x : Q) :
  0 < x -> pow2 (binade x) <= x < pow2 (binade x + 1).
Proof.
  intro Hx. pose proof (Qnum_pos x Hx) as Hn.
  destruct x as [n d]. simpl in Hn. unfold binade. simpl Qnum. simpl Qden.
  set (a := Z.log2 n). set (b := Z.log2 (Zpos d)).
  destruct (Z.log2_spec n Hn) as [Ha1 Ha2]. fold a in Ha1, Ha2.
  destruct (Z.log2_spec (Zpos d) eq_refl) as [Hb1 Hb2]. fold b in Hb1, Hb2.
  assert (Ha0 : (0 <= a)%Z) by apply Z.log2_nonneg.
  assert (Hb0 : (0 <= b)%Z) by apply Z.log2_nonneg.
  assert (Hd : 0 < inject_Z (Zpos d)) by reflexivity.
  assert (Hnd : n # d == inject_Z n / inject_Z (Zpos d)) by (apply Qmake_Qdiv).
  (* bounds in Q *)
  assert (A1 : pow2 a <= inject_Z n) by (rewrite pow2_inject by lia; rewrite <- Zle_Qle; lia).
  assert (A2 : inject_Z n < pow2 (a + 1)).
  { rewrite pow2_inject by lia. rewrite <- Zlt_Qlt. replace (a + 1)%Z with (Z.succ a) by lia. lia. }
  assert (B1 : pow2 b <= inject_Z (Zpos d)) by (rewrite pow2_inject by lia; rewrite <- Zle_Qle; lia).
  assert (B2 : inject_Z (Zpos d) < pow2 (b + 1)).
  { rewrite pow2_inject by lia. rewrite <- Zlt_Qlt. replace (b + 1)%Z with (Z.succ b) by lia. lia. }
  assert (E : pow2 a == pow2 (a - b) * pow2 b).
  { rewrite <- pow2_add. replace (a - b + b)%Z with a by lia. reflexivity. }
  pose proof (pow2_pos a) as Pa. pose proof (pow2_pos b) as Pb.
  pose proof (pow2_pos (a - b)) as Pe.
  pose proof (pow2_succ a) as Sa. pose proof (pow2_succ b) as Sb.
  pose proof (pow2_succ (a - b)) as Se.
  pose proof (pow2_pred (a - b)) as Pr.
  assert (Up : n # d < pow2 (a - b + 1)).
  { rewrite Hnd. apply Qlt_shift_div_r; [exact Hd |]. nra. }
  assert (Lo : pow2 (a - b - 1) < n # d).
  { rewrite Hnd. apply Qlt_shift_div_l; [exact Hd |]. nra. }
  destruct (Qle_bool (pow2 (a - b)) (n # d)) eqn:C.
  - apply Qle_bool_iff in C. split; assumption.
  - assert (~ pow2 (a - b) <= n # d) by (intro K; apply Qle_bool_iff in K; congruence).
    replace (a - b - 1 + 1)%Z with (a - b)%Z by lia. split; lra.
Qed.

Lemma binade_unique (x : Q) (e : Z) :
  pow2 e <= x < pow2 (e + 1) -> binade x = e.
Proof.
  intros [H1 H2]. assert (Hx : 0 < x) by (pose proof (pow2_pos e); lra).
  destruct (binade_spec x Hx) as [S1 S2].
  assert ((binade x < e + 1)%Z) by (apply pow2_lt_inv; lra).
  assert ((e < binade x + 1)%Z) by (apply pow2_lt_inv; lra).
  lia.
Qed.

Lemma binade_comp (x y : Q) : 0 < x -> x == y -> binade x = binade y.
Proof.
  intros Hx E. symmetry. apply binade_unique. rewrite <- E. apply binade_spec. exact Hx.
Qed.

Lemma binade_mono (x y : Q) : 0 < x -> x <= y -> (binade x <= binade y)%Z.
Proof.
  intros Hx Hxy. destruct (binade_spec x Hx) as [S1 _].
  destruct (binade_spec y) as [_ T2]; [lra |].
  assert ((binade x < binade y + 1)%Z) by (apply pow2_lt_inv; lra). lia.
Qed.

(** ** The nearest integer, ties to even *)
Lemma rne_cases (x : Q) :
  let f := Qfloor x in
  (x - inject_Z f < 1 # 2 /\ rne x = f) \/
  (1 # 2 < x - inject_Z f /\ rne x = (f + 1)%Z) \/
  (x - inject_Z f == 1 # 2 /\ rne x = if Z.even f then f else (f + 1)%Z).
Proof.
  intro f. unfold rne. fold f.
  destruct (Qcompare (x - inject_Z f) (1 # 2)) eqn:C.
  - right. right. split; [apply Qeq_alt; exact C | reflexivity].
  - left. split; [apply Qlt_alt; exact C | reflexivity].
  - right. left. split; [apply Qgt_alt; exact C | reflexivity].
Qed.

Lemma floor_bounds (x : Q) : inject_Z (Qfloor x) <= x < inject_Z (Qfloor x) + 1.
Proof.
  split; [apply Qfloor_le |].
  pose proof (Qlt_floor x) as H. rewrite inject_Z_plus in H. exact H.
Qed.

Lemma rne_error (x : Q) : x - (1 # 2) <= inject_Z (rne x) <= x + (1 # 2).
Proof.
  pose proof (floor_bounds x) as [F1 F2].
  destruct (rne_cases x) as [[H ->] | [[H ->] | [H ->]]].
  - lra.
  - rewrite inject_Z_plus. change (inject_Z 1) with 1. lra.
  - destruct (Z.even (Qfloor x)); [| rewrite inject_Z_plus; change (inject_Z 1) with 1]; lra.
Qed.

Lemma rne_comp (x y : Q) : x == y -> rne x = rne y.
Proof.
  intro E. unfold rne. rewrite (Qfloor_comp x y E).
  assert (E' : x - inject_Z (Qfloor y) == y - inject_Z (Qfloor y)) by (rewrite E; reflexivity).
  rewrite (Qcompare_comp _ _ E' (1 # 2) (1 # 2) (Qeq_refl _)). reflexivity.
Qed.

Lemma rne_Z (z : Z) : rne (inject_Z z) = z.
Proof.
  destruct (rne_cases (inject_Z z)) as [[H E] | [[H E] | [H E]]];
    rewrite Qfloor_Z in *.
  - exact E.
  - exfalso. lra.
  - exfalso. lra.
Qed.

Lemma rne_mono (x y : Q) : x <= y -> (rne x <= rne y)%Z.
Proof.
  intro Hxy. pose proof (Qfloor_resp_le x y Hxy) as Hf.
  pose proof (floor_bounds x) as [X1 X2]. pose proof (floor_bounds y) as [Y1 Y2].
  destruct (Z.eq_dec (Qfloor x) (Qfloor y)) as [E | NE].
  - destruct (rne_cases x) as [[Hx Ex] | [[Hx Ex] | [Hx Ex]]];
      destruct (rne_cases y) as [[Hy Ey] | [[Hy Ey] | [Hy Ey]]];
      rewrite Ex, Ey; rewrite <- E in *;
      try (destruct (Z.even (Qfloor x))); try lia; exfalso; lra.
  - assert (rne x <= Qfloor x + 1)%Z.
    { destruct (rne_cases x) as [[_ ->] | [[_ ->] | [_ ->]]];
        try destruct (Z.even (Qfloor x)); lia. }
    assert (Qfloor y <= rne y)%Z.
    { destruct (rne_cases y) as [[_ ->] | [[_ ->] | [_ ->]]];
        try destruct (Z.even (Qfloor y)); lia. }
    lia.
Qed.

Lemma rne_ge (z : Z) (x : Q) : inject_Z z <= x -> (z <= rne x)%Z.
Proof. intro H. rewrite <- (rne_Z z). apply rne_mono. exact H. Qed.

Lemma rne_le (z : Z) (x : Q) : x <= inject_Z z -> (rne x <= z)%Z.
Proof. intro H. rewrite <- (rne_Z z). apply rne_mono. exact H. Qed.

(** ** Rounding a positive number *)

Lemma quantum_comp (x y : Q) : 0 < x -> x == y -> quantum x = quantum y.
Proof. intros Hx E. unfold quantum. rewrite (binade_comp x y Hx E). reflexivity. Qed.

Lemma round_positive_comp (x y : Q) :
  0 < x -> x == y -> round_positive x == round_positive y.
Proof.
  intros Hx E. unfold round_positive. rewrite (quantum_comp x y Hx E).
  rewrite (rne_comp (x / pow2 (quantum y)) (y / pow2 (quantum y))) by (rewrite E; reflexivity).
  reflexivity.
Qed.

Lemma scaled_back (x : Q) (q : Z) : x / pow2 q * pow2 q == x.
Proof. pose proof (pow2_pos q). field. lra. Qed.

Lemma round_positive_error (x : Q) :
  x - pow2 (quantum x - 1) <= round_positive x <= x + pow2 (quantum x - 1).
Proof.
  unfold round_positive. set (q := quantum x).
  pose proof (rne_error (x / pow2 q)) as [E1 E2].
  pose proof (pow2_pos q) as P. pose proof (scaled_back x q) as S.
  pose proof (pow2_pred q) as Pr.
  set (t := x / pow2 q) in *. set (m := inject_Z (rne t)) in *.
  assert ((t - (1 # 2)) * pow2 q <= m * pow2 q) by (apply Qmult_le_compat_r; lra).
  assert (m * pow2 q <= (t + (1 # 2)) * pow2 q) by (apply Qmult_le_compat_r; lra).
  split; nra.
Qed.

Lemma round_positive_nonneg (x : Q) : 0 <= x -> 0 <= round_positive x.
Proof.
  intro Hx. unfold round_positive. pose proof (pow2_pos (quantum x)) as P.
  apply Qmult_le_0_compat; [| lra].
  change 0 with (inject_Z 0). rewrite <- Zle_Qle. apply rne_ge.
  change (inject_Z 0) with 0. apply Qle_shift_div_l; lra.
Qed.

(** A power of two that the quantum divides is a fence for rounding. *)
Lemma round_positive_below (x : Q) (e : Z) :
  x <= pow2 e -> (quantum x <= e)%Z -> round_positive x <= pow2 e.
Proof.
  intros Hx Hq. unfold round_positive. set (q := quantum x) in *.
  pose proof (pow2_pos q) as P.
  assert (E : pow2 e == inject_Z (2 ^ (e - q)) * pow2 q).
  { rewrite <- pow2_inject by lia. rewrite <- pow2_add.
    replace (e - q + q)%Z with e by lia. reflexivity. }
  rewrite E. apply Qmult_le_compat_r; [| lra].
  rewrite <- Zle_Qle. apply rne_le. apply Qle_shift_div_r; [exact P |].
  rewrite <- E. exact Hx.
Qed.

Lemma round_positive_above (x : Q) (e : Z) :
  pow2 e <= x -> (quantum x <= e)%Z -> pow2 e <= round_positive x.
Proof.
  intros Hx Hq. unfold round_positive. set (q := quantum x) in *.
  pose proof (pow2_pos q) as P.
  assert (E : pow2 e == inject_Z (2 ^ (e - q)) * pow2 q).
  { rewrite <- pow2_inject by lia. rewrite <- pow2_add.
    replace (e - q + q)%Z with e by lia. reflexivity. }
  rewrite E. apply Qmult_le_compat_r; [| lra].
  rewrite <- Zle_Qle. apply rne_ge. apply Qle_shift_div_l; [exact P |].
  rewrite <- E. exact Hx.
Qed.

Lemma quantum_mono (x y : Q) : 0 < x -> x <= y -> (quantum x <= quantum y)%Z.
Proof. intros Hx Hxy. unfold quantum. pose proof (binade_mono x y Hx Hxy). lia. Qed.

Lemma round_positive_mono (x y : Q) :
  0 < x -> x <= y -> round_positive x <= round_positive y.
Proof.
  intros Hx Hxy. assert (Hy : 0 < y) by lra.
  pose proof (quantum_mono x y Hx Hxy) as Hq.
  destruct (Z.eq_dec (quantum x) (quantum y)) as [E | NE].
  - unfold round_positive. rewrite E. pose proof (pow2_pos (quantum y)) as P.
    apply Qmult_le_compat_r; [| lra]. rewrite <- Zle_Qle. apply rne_mono.
    apply Qmult_le_compat_r; [exact Hxy |]. apply Qlt_le_weak. apply Qinv_lt_0_compat. exact P.
  - destruct (binade_spec x Hx) as [_ X2]. destruct (binade_spec y Hy) as [Y1 _].
    pose proof (binade_mono x y Hx Hxy) as Hb.
    assert (Hlt : (binade x < binade y)%Z) by (unfold quantum in *; lia).
    assert (Hqy : (quantum y <= binade y)%Z) by (unfold quantum in *; lia).
    apply Qle_trans with (pow2 (binade y)).
    + apply round_positive_below.
      * apply Qle_trans with (pow2 (binade x + 1)); [lra | apply pow2_le; lia].
      * lia.
    + apply round_positive_above; assumption.
Qed.

Lemma round_positive_normal (x : Q) :
  SMALLEST_NORMAL <= x ->
  x * (1 - UNIT_ROUNDOFF) <= round_positive x <= x * (1 + UNIT_ROUNDOFF).
Proof.
  intro Hx. unfold SMALLEST_NORMAL in Hx.
  assert (H0 : 0 < x) by (pose proof (pow2_pos (-1022)); lra).
  destruct (binade_spec x H0) as [B1 B2].
  assert (Hb : (-1022 <= binade x)%Z).
  { assert ((-1022 < binade x + 1)%Z) by (apply pow2_lt_inv; lra). lia. }
  pose proof (round_positive_error x) as [E1 E2].
  assert (Q : quantum x = (binade x - 52)%Z) by (unfold quantum; lia).
  assert (P : pow2 (quantum x - 1) == pow2 (binade x) * UNIT_ROUNDOFF).
  { unfold UNIT_ROUNDOFF. rewrite <- pow2_add. rewrite Q.
    replace (binade x - 52 - 1)%Z with (binade x + -53)%Z by lia. reflexivity. }
  rewrite P in E1, E2.
  assert (U : 0 < UNIT_ROUNDOFF) by apply pow2_pos.
  assert (pow2 (binade x) * UNIT_ROUNDOFF <= x * UNIT_ROUNDOFF)
    by (apply Qmult_le_compat_r; lra).
  split; lra.
Qed.

Lemma round_positive_any (x : Q) :
  0 < x ->
  x * (1 - UNIT_ROUNDOFF) - HALF_SUBNORMAL_STEP <= round_positive x
  <= x * (1 + UNIT_ROUNDOFF) + HALF_SUBNORMAL_STEP.
Proof.
  intro H0. assert (U : 0 < UNIT_ROUNDOFF) by apply pow2_pos.
  assert (S : 0 < HALF_SUBNORMAL_STEP) by apply pow2_pos.
  destruct (Z.le_gt_cases (-1074) (binade x - 52)) as [N | D].
  - assert (SMALLEST_NORMAL <= x).
    { destruct (binade_spec x H0) as [B1 _]. unfold SMALLEST_NORMAL.
      apply Qle_trans with (pow2 (binade x)); [apply pow2_le; lia | exact B1]. }
    pose proof (round_positive_normal x H). lra.
  - pose proof (round_positive_error x) as [E1 E2].
    assert (Q : (quantum x - 1 = -1075)%Z) by (unfold quantum; lia).
    rewrite Q in E1, E2. fold HALF_SUBNORMAL_STEP in E1, E2.
    assert (0 <= x * UNIT_ROUNDOFF) by (apply Qmult_le_0_compat; lra).
    split; lra.
Qed.

(** ** Rounding to binary64 *)

Lemma round_binary64_pos (x : Q) : 0 < x -> round_binary64 x = round_positive x.
Proof.
  intro H. pose proof (Qnum_pos x H) as Hn. unfold round_binary64.
  destruct (Qnum x); [lia | reflexivity | lia].
Qed.

Lemma round_binary64_neg (x : Q) : x < 0 -> round_binary64 x = - round_positive (- x).
Proof.
  intro H. unfold round_binary64. destruct x as [n d]. unfold Qlt in H. simpl in *.
  destruct n; [lia | lia | reflexivity].
Qed.

Lemma round_binary64_zero (x : Q) : x == 0 -> round_binary64 x = 0.
Proof.
  intro H. unfold round_binary64. destruct x as [n d]. unfold Qeq in H. simpl in *.
  destruct n; [reflexivity | lia | lia].
Qed.

Lemma round_binary64_comp (x y : Q) : x == y -> round_binary64 x == round_binary64 y.
Proof.
  intro E. destruct (Qlt_le_dec 0 x) as [P | NP].
  - rewrite (round_binary64_pos x P), (round_binary64_pos y) by lra.
    apply round_positive_comp; assumption.
  - destruct (Qlt_le_dec x 0) as [N | Z].
    + rewrite (round_binary64_neg x N), (round_binary64_neg y) by lra.
      apply Qopp_comp. apply round_positive_comp; lra.
    + rewrite (round_binary64_zero x), (round_binary64_zero y) by lra. reflexivity.
Qed.

Lemma round_binary64_nonneg (x : Q) : 0 <= x -> 0 <= round_binary64 x.
Proof.
  intro H. destruct (Qlt_le_dec 0 x) as [P | NP].
  - rewrite (round_binary64_pos x P). apply round_positive_nonneg. exact H.
  - rewrite (round_binary64_zero x) by lra. lra.
Qed.

Lemma round_binary64_nonpos (x : Q) : x <= 0 -> round_binary64 x <= 0.
Proof.
  intro H. destruct (Qlt_le_dec x 0) as [N | NN].
  - rewrite (round_binary64_neg x N).
    pose proof (round_positive_nonneg (- x)). lra.
  - rewrite (round_binary64_zero x) by lra. lra.
Qed.

Lemma round_binary64_mono (x y : Q) : x <= y -> round_binary64 x <= round_binary64 y.
Proof.
  intro H. destruct (Qlt_le_dec 0 x) as [P | NP].
  - rewrite (round_binary64_pos x P), (round_binary64_pos y) by lra.
    apply round_positive_mono; assumption.
  - destruct (Qlt_le_dec y 0) as [N | NN].
    + rewrite (round_binary64_neg x), (round_binary64_neg y) by lra.
      assert (round_positive (- y) <= round_positive (- x))
        by (apply round_positive_mono; lra).
      lra.
    + pose proof (round_binary64_nonpos x NP). pose proof (round_binary64_nonneg y NN). lra.
Qed.

Lemma round_binary64_normal (x : Q) :
  SMALLEST_NORMAL <= x ->
  x * (1 - UNIT_ROUNDOFF) <= round_binary64 x <= x * (1 + UNIT_ROUNDOFF).
Proof.
  intro H. assert (0 < x) by (pose proof (pow2_pos (-1022)); unfold SMALLEST_NORMAL in H; lra).
  rewrite round_binary64_pos by assumption. apply round_positive_normal. exact H.
Qed.

Lemma round_binary64_any (x : Q) :
  0 <= x ->
  x * (1 - UNIT_ROUNDOFF) - HALF_SUBNORMAL_STEP <= round_binary64 x
  <= x * (1 + UNIT_ROUNDOFF) + HALF_SUBNORMAL_STEP.
Proof.
  intro H. destruct (Qlt_le_dec 0 x) as [P | NP].
  - rewrite round_binary64_pos by assumption. apply round_positive_any. exact P.
  - rewrite (round_binary64_zero x) by lra.
    assert (x == 0) by lra. pose proof (pow2_pos (-1075)). unfold HALF_SUBNORMAL_STEP.
    split; nra.
Qed.
